(** * Hogwarts house points: the replication engine of
      [hogwarts_hauspunkte_react_app.jsx]

    A shallow embedding of the state reducer ([applyDelta], [onAdd],
    [resetAll]), the durable local store ([readLocal], [writeLocal]), the
    room binding ([sanitizeRoom]) and the three synchronisation effects of
    the component (initial load, realtime subscription, debounced upsert),
    followed by the properties the specification states about them.

    Conventions of the embedding.
    - A JavaScript string is a [string]; the host functions the source calls
      on strings ([toLowerCase], [trim], [JSON.parse]) are the fields of the
      class [Host].
    - A JavaScript number is a [number]: [NaN], an infinity, or an integer
      (the application only ever produces integers: [parseInt], [Math.floor],
      the literals 5 and 0); a sum is rounded to a double, so it is exact
      only while it stays below [2^53] in magnitude.
    - A plain object used as a dictionary is a [gmap string _]; nothing in
      the source checks the key set of such an object, so neither does its
      type here.
    - A timestamp string ([updated_at], [lastRemoteRef.current]) is an
      [isoTime]: the source only ever tests such a string for truthiness and
      feeds it to [new Date(_)].
    - [useState]/[useEffect] are modelled by an explicit engine state and a
      step function over events; the clock is a logical clock in the unit of
      [setTimeout] (milliseconds). *)

From Stdlib Require Import ZArith Ascii String List Lia.
From stdpp Require Import base option list gmap strings.

Set Warnings "-register-all".
Local Open Scope string_scope.
Local Open Scope Z_scope.

(** ** Constants and types (source lines 34-62) *)

Inductive House := Gryffindor | Slytherin | Ravenclaw | Hufflepuff.

Definition HOUSES : list House := [Gryffindor; Slytherin; Ravenclaw; Hufflepuff].

(** The property name a house is used as ([points[target]]). *)
Definition houseKey (h : House) : string :=
  match h with
  | Gryffindor => "Gryffindor"
  | Slytherin => "Slytherin"
  | Ravenclaw => "Ravenclaw"
  | Hufflepuff => "Hufflepuff"
  end.

Definition houseKeys : gset string := list_to_set (houseKey <$> HOUSES).

Inductive number :=
| NaN
| Infinity (negative : bool)
| Int (z : Z).

(** [2^53]: every integer smaller in magnitude is a double. *)
Definition SAFE : Z := 9007199254740992.

(** The double nearest to the integer [z], as IEEE 754 rounds: below [2^53]
    in magnitude [z] itself; from there on the nearest multiple of the
    spacing [2^e] of the doubles around [z], a tie going to the even
    significand; an infinity once the rounded magnitude reaches [2^1024]. *)
Definition roundToDouble (z : Z) : number :=
  let a := Z.abs z in
  if a <? SAFE then Int z
  else
    let e := Z.log2 a - 52 in
    let q := a / 2 ^ e in
    let r := a mod 2 ^ e in
    let half := 2 ^ (e - 1) in
    let m := if r <? half then q
             else if half <? r then q + 1
             else if Z.even q then q else q + 1 in
    if 2 ^ 1024 <=? m * 2 ^ e then Infinity (z <? 0)
    else Int (Z.sgn z * (m * 2 ^ e)).

(** [a + b] on numbers: the sum of two integer-valued doubles is their exact
    sum rounded to a double. *)
Definition numAdd (a b : number) : number :=
  match a, b with
  | NaN, _ | _, NaN => NaN
  | Int x, Int y => roundToDouble (x + y)
  | Infinity s, Int _ | Int _, Infinity s => Infinity s
  | Infinity s, Infinity t => if Bool.eqb s t then Infinity s else NaN
  end.

(** [points[target] + delta], where a missing property reads [undefined]
    and [undefined + delta] is [NaN]. *)
Definition addToProperty (v : option number) (delta : number) : number :=
  match v with
  | Some x => numAdd x delta
  | None => NaN
  end.

Definition MAX_HISTORY : nat := 200.

Definition DEBOUNCE : Z := 400.

(** [type PointsState = Record<House, number>]: at run time a plain object
    with numeric properties. *)
Abbreviation PointsState := (gmap string number).

Record HistoryEntry := {
  id : string;
  house : House;
  delta : number;
  reason : option string;
  timestamp : Z
}.

Inductive Theme := light | dark.

Inductive Backend := local | supabase.

Inductive NetStatus := offline | online | syncing.

(** [type AppState]. The record is generic in the types of the three fields
    whose values [readLocal] takes from parsed JSON without looking at them
    ([P] for [points], [H] for the entries of [history], [B] for
    [backend]). *)
Record AppStateOf (P H B : Type) := {
  points : P;
  history : list H;
  theme : Theme;
  bgUrl : string;
  room : string;
  backend : B
}.
Arguments points {P H B} _.
Arguments history {P H B} _.
Arguments theme {P H B} _.
Arguments bgUrl {P H B} _.
Arguments room {P H B} _.
Arguments backend {P H B} _.

(** The state as the reducer and the effects use it. *)
Abbreviation AppState := (AppStateOf PointsState HistoryEntry Backend).

(** [{ Gryffindor: 0, Slytherin: 0, Ravenclaw: 0, Hufflepuff: 0 }] *)
Definition zeroPoints : PointsState :=
  <["Gryffindor" := Int 0]> (<["Slytherin" := Int 0]>
    (<["Ravenclaw" := Int 0]> (<["Hufflepuff" := Int 0]> ∅))).

(** ** Parsed JSON *)

Inductive json :=
| JNull
| JBool (b : bool)
| JNum (z : Z)
| JStr (s : string)
| JArr (items : list json)
| JObj (props : gmap string json).

(** [data.name] on a value that is neither [null] nor [undefined]: own
    properties of an object; the names read by the source are not properties
    of arrays, strings, numbers or booleans. *)
Definition getProp (data : json) (name : string) : option json :=
  match data with
  | JObj props => props !! name
  | _ => None
  end.

(** JavaScript truthiness of a possibly [undefined] JSON value. *)
Definition truthy (v : option json) : bool :=
  match v with
  | None | Some JNull => false
  | Some (JBool b) => b
  | Some (JNum z) => negb (Z.eqb z 0)
  | Some (JStr s) => negb (String.eqb s "")
  | Some (JArr _) | Some (JObj _) => true
  end.

(** Exceptions: a computation returns a value or throws. *)
Inductive outcome (A : Type) :=
| Returned (a : A)
| Thrown.
Arguments Returned {A} _.
Arguments Thrown {A}.

#[global] Instance outcome_bind : MBind outcome := λ A B k m,
  match m with
  | Returned a => k a
  | Thrown => Thrown
  end.

(** [try { body } catch { handler }] *)
Definition tryCatch {A} (body handler : outcome A) : outcome A :=
  match body with
  | Returned a => Returned a
  | Thrown => handler
  end.

(** ** Host functions *)

Class Host := {
  (** [String.prototype.toLowerCase] *)
  toLowerCase : string → string;
  (** [String.prototype.trim] *)
  trim : string → string;
  (** [JSON.parse]; [None] is a [SyntaxError] *)
  JSON_parse : string → option json;
  (** the module constant [supabaseReady] *)
  supabaseReady : bool
}.

(** ** Room binding (source line 80) *)

Definition inRange (lo hi : string) (c : ascii) : bool :=
  match lo, hi with
  | String l EmptyString, String h EmptyString =>
      ((N_of_ascii l <=? N_of_ascii c) && (N_of_ascii c <=? N_of_ascii h))%N
  | _, _ => false
  end.

(** The class [[a-z0-9_-]] as written. *)
Definition roomChar (c : ascii) : bool :=
  inRange "a" "z" c || inRange "0" "9" c
  || Ascii.eqb c "_"%char || Ascii.eqb c "-"%char.

(** The same class under the [i] flag of [/[^a-z0-9_-]/gi]: a character is
    in the class when its canonical (upper-case) form is that of a member. *)
Definition roomCharIgnoreCase (c : ascii) : bool :=
  roomChar c || inRange "A" "Z" c.

(** [.replace(/[^a-z0-9_-]/gi, "")] *)
Definition stripDisallowed (s : string) : string :=
  string_of_list_ascii (filter (fun c => roomCharIgnoreCase c = true) (list_ascii_of_string s)).

(** [.slice(0, n)] on a string *)
Definition sliceTo (n : nat) (s : string) : string :=
  string_of_list_ascii (take n (list_ascii_of_string s)).

(** [x || fallback] on strings *)
Definition orElse (x fallback : string) : string :=
  if String.eqb x "" then fallback else x.

Definition sanitizeRoom `{Host} (s : string) : string :=
  orElse (sliceTo 64 (stripDisallowed (toLowerCase (orElse s "")))) "demo".

(** [getRoomFromURL()]: [param] is what [u.searchParams.get("room")]
    evaluates to, [Thrown] when building the URL throws, [None] when there
    is no such parameter (or no [window]). *)
Definition getRoomFromURL `{Host} (param : outcome (option string)) : string :=
  match param with
  | Returned (Some r) => if String.eqb r "" then "" else sanitizeRoom r
  | Returned None => ""
  | Thrown => ""
  end.

(** [sanitizeRoom] applied to a run-time value that need not be a string:
    [(s || "")] replaces a falsy value, and a truthy value that is not a
    string has no [toLowerCase] method, so the call throws. *)
Definition sanitizeRoomValue `{Host} (v : option json) : outcome string :=
  if truthy v then
    match v with
    | Some (JStr s) => Returned (sanitizeRoom s)
    | _ => Thrown
    end
  else Returned (sanitizeRoom "").

(** ** Durable local store (source lines 100-134) *)

(** What [readLocal] returns: [points], the entries of [history] and
    [backend] are whatever JSON the store held. *)
Abbreviation RawState := (AppStateOf json json json).

Definition zeroPointsJson : json :=
  JObj (<["Gryffindor" := JNum 0]> (<["Slytherin" := JNum 0]>
    (<["Ravenclaw" := JNum 0]> (<["Hufflepuff" := JNum 0]> ∅)))).

Definition backendName (b : Backend) : string :=
  match b with
  | local => "local"
  | supabase => "supabase"
  end.

(** [supabaseReady ? "supabase" : "local"] *)
Definition defaultBackend `{Host} : Backend :=
  if supabaseReady then supabase else local.

(** [data.name]; reading a property of [null] throws. *)
Definition readField (data : json) (name : string) : outcome (option json) :=
  match data with
  | JNull => Thrown
  | _ => Returned (getProp data name)
  end.

(** [x ?? fallback] *)
Definition nullish (v : option json) (fallback : json) : json :=
  match v with
  | None | Some JNull => fallback
  | Some x => x
  end.

(** [Array.isArray(data.history) ? data.history.slice(0, MAX_HISTORY) : []] *)
Definition loadedHistory (h : option json) : list json :=
  match h with
  | Some (JArr items) => take MAX_HISTORY items
  | _ => []
  end.

(** [data.theme === "light" ? "light" : "dark"] *)
Definition loadedTheme (t : option json) : Theme :=
  match t with
  | Some (JStr s) => if String.eqb s "light" then light else dark
  | _ => dark
  end.

(** [typeof data.bgUrl === "string" ? data.bgUrl : ""] *)
Definition loadedBgUrl (b : option json) : string :=
  match b with
  | Some (JStr s) => s
  | _ => ""
  end.

(** [(data.backend as Backend) || (supabaseReady ? "supabase" : "local")] *)
Definition loadedBackend `{Host} (k : option json) : json :=
  match k with
  | Some v => if truthy k then v else JStr (backendName defaultBackend)
  | None => JStr (backendName defaultBackend)
  end.

(** The [try] block of [readLocal]. [item] is the result of
    [localStorage.getItem(LS_KEY)]. *)
Definition readLocalTry `{Host} (item : outcome (option string))
    (param : outcome (option string)) : outcome RawState :=
  raw ← item ;
  match raw with
  | None => Thrown
  | Some text =>
    if String.eqb text "" then Thrown else
    match JSON_parse text with
    | None => Thrown
    | Some data =>
      p ← readField data "points" ;
      h ← readField data "history" ;
      t ← readField data "theme" ;
      b ← readField data "bgUrl" ;
      r ← readField data "room" ;
      let roomValue :=
        if truthy r then r else Some (JStr (orElse (getRoomFromURL param) "demo")) in
      room' ← sanitizeRoomValue roomValue ;
      k ← readField data "backend" ;
      Returned
        {| points := nullish p zeroPointsJson;
           history := loadedHistory h;
           theme := loadedTheme t;
           bgUrl := loadedBgUrl b;
           room := room';
           backend := loadedBackend k |}
    end
  end.

(** The [catch] block of [readLocal]. *)
Definition readLocalCatch `{Host} (param : outcome (option string)) : outcome RawState :=
  room' ← sanitizeRoomValue (Some (JStr (orElse (getRoomFromURL param) "demo"))) ;
  Returned
    {| points := zeroPointsJson;
       history := [];
       theme := dark;
       bgUrl := "";
       room := room';
       backend := JStr (backendName defaultBackend) |}.

Definition readLocal `{Host} (item param : outcome (option string)) : outcome RawState :=
  tryCatch (readLocalTry item param) (readLocalCatch param).

(** The record [toSave] of [writeLocal]. *)
Definition toSave {P H B} (state : AppStateOf P H B) : AppStateOf P H B :=
  {| points := points state;
     history := take MAX_HISTORY (history state);
     theme := theme state;
     bgUrl := bgUrl state;
     room := room state;
     backend := backend state |}.

(** [writeLocal]: the stored text is represented by the record it
    serialises; [accepts] tells whether [localStorage.setItem] takes it (it
    throws when the quota is exceeded, and the exception is rethrown). *)
Definition writeLocal (accepts : AppState → bool) (state : AppState) : outcome AppState :=
  let saved := toSave state in
  if accepts saved then Returned saved else Thrown.

(** ** Timestamps *)

(** The string held by [updated_at] and [lastRemoteRef.current]: one that
    [new Date(_)] reads as an instant (milliseconds), or any other string. *)
Inductive isoTime :=
| Instant (ms : Z)
| NotADate (s : string).

(** [new Date().toISOString()] at clock reading [now] *)
Definition toISOString (now : Z) : isoTime := Instant now.

(** The time value of [new Date(t)]; [None] is the [NaN] of an invalid date. *)
Definition dateValue (t : isoTime) : option Z :=
  match t with
  | Instant ms => Some ms
  | NotADate _ => None
  end.

(** [new Date(a) > new Date(b)]; a comparison with [NaN] is false. *)
Definition dateGt (a b : isoTime) : bool :=
  match dateValue a, dateValue b with
  | Some x, Some y => Z.ltb y x
  | _, _ => false
  end.

(** Truthiness of [lastRemoteRef.current] ([null] or a string). *)
Definition refTruthy (r : option isoTime) : bool :=
  match r with
  | None => false
  | Some (Instant _) => true
  | Some (NotADate s) => negb (String.eqb s "")
  end.

(** ** The component (source lines 137-241) *)

(** A row of the table [games]: what [select] returns, what the realtime
    payload carries as [new], and what [upsert] is given. *)
Record Row := {
  rowId : string;
  rowPoints : PointsState;
  rowHistory : list HistoryEntry;
  updated_at : isoTime
}.

(** The pending [setTimeout] of the upsert effect, with what its callback
    closes over. *)
Record Timer := {
  due : Z;
  pushRoom : string;
  pushPoints : PointsState;
  pushHistory : list HistoryEntry
}.

Record Engine := {
  state : AppState;                  (* useState(readLocal()) *)
  lastRemoteRef : option isoTime;    (* useRef(null) *)
  net : NetStatus;
  timer : option Timer;              (* the timeout not yet run or cleared *)
  channel : option string;           (* room of the open realtime channel *)
  clock : Z;
  upserts : list Row;                (* rows given to upsert, latest first *)
  awaitingUpsert : nat;              (* upserts not yet settled *)
  awaitingSelect : nat               (* selects not yet settled *)
}.

Definition withState (s : AppState) (e : Engine) : Engine :=
  {| state := s; lastRemoteRef := lastRemoteRef e; net := net e; timer := timer e;
     channel := channel e; clock := clock e; upserts := upserts e;
     awaitingUpsert := awaitingUpsert e; awaitingSelect := awaitingSelect e |}.

Definition withRef (r : option isoTime) (e : Engine) : Engine :=
  {| state := state e; lastRemoteRef := r; net := net e; timer := timer e;
     channel := channel e; clock := clock e; upserts := upserts e;
     awaitingUpsert := awaitingUpsert e; awaitingSelect := awaitingSelect e |}.

Definition setNet (n : NetStatus) (e : Engine) : Engine :=
  {| state := state e; lastRemoteRef := lastRemoteRef e; net := n; timer := timer e;
     channel := channel e; clock := clock e; upserts := upserts e;
     awaitingUpsert := awaitingUpsert e; awaitingSelect := awaitingSelect e |}.

Definition withTimer (t : option Timer) (e : Engine) : Engine :=
  {| state := state e; lastRemoteRef := lastRemoteRef e; net := net e; timer := t;
     channel := channel e; clock := clock e; upserts := upserts e;
     awaitingUpsert := awaitingUpsert e; awaitingSelect := awaitingSelect e |}.

Definition withChannel (c : option string) (e : Engine) : Engine :=
  {| state := state e; lastRemoteRef := lastRemoteRef e; net := net e; timer := timer e;
     channel := c; clock := clock e; upserts := upserts e;
     awaitingUpsert := awaitingUpsert e; awaitingSelect := awaitingSelect e |}.

Definition withClock (c : Z) (e : Engine) : Engine :=
  {| state := state e; lastRemoteRef := lastRemoteRef e; net := net e; timer := timer e;
     channel := channel e; clock := c; upserts := upserts e;
     awaitingUpsert := awaitingUpsert e; awaitingSelect := awaitingSelect e |}.

Definition withUpserts (u : list Row) (n : nat) (e : Engine) : Engine :=
  {| state := state e; lastRemoteRef := lastRemoteRef e; net := net e; timer := timer e;
     channel := channel e; clock := clock e; upserts := u;
     awaitingUpsert := n; awaitingSelect := awaitingSelect e |}.

Definition withSelects (n : nat) (e : Engine) : Engine :=
  {| state := state e; lastRemoteRef := lastRemoteRef e; net := net e; timer := timer e;
     channel := channel e; clock := clock e; upserts := upserts e;
     awaitingUpsert := awaitingUpsert e; awaitingSelect := n |}.

Definition isSupabase (b : Backend) : bool :=
  match b with
  | supabase => true
  | local => false
  end.

Definition sameBackend (a b : Backend) : bool := Bool.eqb (isSupabase a) (isSupabase b).

Definition effectiveBackend `{Host} (s : AppState) : Backend :=
  if isSupabase (backend s) && negb supabaseReady then local else backend s.

(** The negation of the guard
    [effectiveBackend !== "supabase" || !supabaseReady || !supabase || !room]
    ([supabase] is non-null exactly when [supabaseReady]). *)
Definition remoteActive `{Host} (s : AppState) : bool :=
  isSupabase (effectiveBackend s) && supabaseReady && supabaseReady
  && negb (String.eqb (room s) "").

(** [{ ...prev, points: p, history: h }] *)
Definition withData (p : PointsState) (h : list HistoryEntry) (prev : AppState) : AppState :=
  {| points := p; history := h; theme := theme prev; bgUrl := bgUrl prev;
     room := room prev; backend := backend prev |}.

(** The body of the initial-load effect up to its [await]. *)
Definition initialLoadEffect `{Host} (e : Engine) : Engine :=
  if negb (isSupabase (effectiveBackend (state e)) && supabaseReady && supabaseReady)
  then setNet offline e
  else if String.eqb (room (state e)) "" then e
  else withSelects (S (awaitingSelect e)) (setNet syncing e).

(** The subscription effect: the previous channel is removed, a new one is
    opened when the guard passes. *)
Definition subscriptionEffect `{Host} (e : Engine) : Engine :=
  withChannel (if remoteActive (state e) then Some (room (state e)) else None) e.

(** The upsert effect: [clearTimeout] of the previous run, then
    [setTimeout(_, 400)] when the guard passes. *)
Definition upsertEffect `{Host} (e : Engine) : Engine :=
  withTimer
    (if remoteActive (state e)
     then Some {| due := clock e + DEBOUNCE; pushRoom := room (state e);
                  pushPoints := points (state e); pushHistory := history (state e) |}
     else None) e.

(** A state update and the render that follows it. The effects run again
    when one of their dependencies changed: [room] and [effectiveBackend]
    are compared by value, [points] and [history] by identity, so
    [newObjects] tells whether the update built new [points]/[history]
    objects. *)
Definition setState `{Host} (update : AppState → AppState) (newObjects : bool)
    (e : Engine) : Engine :=
  let prev := state e in
  let next := update prev in
  let rebound :=
    negb (String.eqb (room prev) (room next)
          && sameBackend (effectiveBackend prev) (effectiveBackend next)) in
  let e1 := withState next e in
  let e2 := if rebound then subscriptionEffect (initialLoadEffect e1) else e1 in
  if newObjects || rebound then upsertEffect e2 else e2.

(** The updater [applyDelta] passes to [setState]; [uuid] is the value of
    [uuid()] and [now] that of [Date.now()]. *)
Definition applyDeltaUpdate `{Host} (target : House) (delta : number) (why : option string)
    (uuid : string) (now : Z) (prev : AppState) : AppState :=
  let nextPoints : PointsState :=
    <[houseKey target := addToProperty (points prev !! houseKey target) delta]> (points prev) in
  let text := trim (match why with Some w => orElse w "" | None => "" end) in
  let entry :=
    {| id := uuid; house := target; delta := delta;
       reason := if String.eqb text "" then None else Some text;
       timestamp := now |} in
  let nextHistory := take MAX_HISTORY (entry :: history prev) in
  withData nextPoints nextHistory prev.

Definition applyDelta `{Host} (target : House) (delta : number) (why : option string)
    (uuid : string) (e : Engine) : Engine :=
  setState (applyDeltaUpdate target delta why uuid (clock e)) true e.

Inductive Sign := plus | minus.

Definition signValue (s : Sign) : Z :=
  match s with
  | plus => 1
  | minus => -1
  end.

(** [Number.isFinite(amount) ? Math.floor(Math.abs(amount)) : 0] *)
Definition coerceAmount (amount : number) : Z :=
  match amount with
  | Int z => Z.abs z
  | NaN | Infinity _ => 0
  end.

(** [onAdd(sign)], with the form fields [house], [amount] and [reason] it
    reads. *)
Definition onAdd `{Host} (sign : Sign) (house : House) (amount : number) (reason : string)
    (uuid : string) (e : Engine) : Engine :=
  let amt := coerceAmount amount in
  if Z.eqb amt 0 then e
  else applyDelta house (Int (signValue sign * amt)) (Some reason) uuid e.

(** [resetAll()]; [confirmed] is the answer to [confirm(_)]. *)
Definition resetAll `{Host} (confirmed : bool) (e : Engine) : Engine :=
  if negb confirmed then e
  else setState (withData zeroPoints []) true e.

(** The continuation of the initial load after its [await]: [data] is
    [None] when the query failed or found no row. *)
Definition selectDone `{Host} (data : option Row) (e : Engine) : Engine :=
  match awaitingSelect e with
  | O => e
  | S n =>
    let e1 :=
      match data with
      | Some row =>
          withRef (Some (updated_at row))
            (setState (withData (rowPoints row) (take MAX_HISTORY (rowHistory row))) true e)
      | None => e
      end in
    withSelects n (setNet online e1)
  end.

(** The test of the realtime handler,
    [!lastRemoteRef.current || new Date(remote.updated_at) > new Date(lastRemoteRef.current)]. *)
Definition acceptRemote (last : option isoTime) (remoteTime : isoTime) : bool :=
  match last with
  | None => true
  | Some t => negb (refTruthy (Some t)) || dateGt remoteTime t
  end.

(** The realtime handler, called with [payload.new]. *)
Definition onChange `{Host} (new : option Row) (e : Engine) : Engine :=
  match new with
  | None => e
  | Some remote =>
    if acceptRemote (lastRemoteRef e) (updated_at remote)
    then withRef (Some (updated_at remote))
           (setState (withData (rowPoints remote) (take MAX_HISTORY (rowHistory remote))) true e)
    else e
  end.

(** The timeout callback up to its [await]. *)
Definition timeoutFires (t : Timer) (e : Engine) : Engine :=
  withUpserts
    ({| rowId := pushRoom t; rowPoints := pushPoints t; rowHistory := pushHistory t;
        updated_at := toISOString (clock e) |} :: upserts e)
    (S (awaitingUpsert e))
    (withTimer None (setNet syncing e)).

(** The timeout callback after its [await]. *)
Definition upsertDone (e : Engine) : Engine :=
  match awaitingUpsert e with
  | O => e
  | S n => withUpserts (upserts e) n (setNet online (withRef (Some (toISOString (clock e))) e))
  end.

Inductive event :=
| ApplyDelta (target : House) (delta : number) (why : option string) (uuid : string)
| OnAdd (sign : Sign) (house : House) (amount : number) (reason : string) (uuid : string)
| ResetAll (confirmed : bool)
| ToggleTheme
| SetBackground (dataUrl : string)
| SetBackend (b : Backend)
| SetRoom (input : string)
| SelectDone (data : option Row)
| Inbound (new : option Row)
| Elapse (dt : Z)
| Timeout
| UpsertDone.

Definition step `{Host} (ev : event) (e : Engine) : Engine :=
  match ev with
  | ApplyDelta target delta why uuid => applyDelta target delta why uuid e
  | OnAdd sign house amount reason uuid => onAdd sign house amount reason uuid e
  | ResetAll confirmed => resetAll confirmed e
  | ToggleTheme =>
      setState (λ p, {| points := points p; history := history p;
                        theme := match theme p with dark => light | light => dark end;
                        bgUrl := bgUrl p; room := room p; backend := backend p |}) false e
  | SetBackground dataUrl =>
      setState (λ p, {| points := points p; history := history p; theme := theme p;
                        bgUrl := dataUrl; room := room p; backend := backend p |}) false e
  | SetBackend b =>
      setState (λ p, {| points := points p; history := history p; theme := theme p;
                        bgUrl := bgUrl p; room := room p; backend := b |}) false e
  | SetRoom input =>
      setState (λ p, {| points := points p; history := history p; theme := theme p;
                        bgUrl := bgUrl p; room := sanitizeRoom input; backend := backend p |})
               false e
  | SelectDone data => selectDone data e
  | Inbound new =>
      match channel e with
      | Some _ => onChange new e
      | None => e
      end
  | Elapse dt => if Z.ltb dt 0 then e else withClock (clock e + dt) e
  | Timeout =>
      match timer e with
      | Some t => if Z.leb (due t) (clock e) then timeoutFires t e else e
      | None => e
      end
  | UpsertDone => upsertDone e
  end.

Definition run `{Host} (evs : list event) (e : Engine) : Engine :=
  foldl (λ acc ev, step ev acc) e evs.

(** The engine after the first render of the component at clock reading
    [now], its three effects having run once. *)
Definition mount `{Host} (initial : AppState) (now : Z) : Engine :=
  upsertEffect (subscriptionEffect (initialLoadEffect
    {| state := initial; lastRemoteRef := None; net := offline; timer := None;
       channel := None; clock := now; upserts := []; awaitingUpsert := 0;
       awaitingSelect := 0 |})).

(** The states the component can be in. *)
Inductive reachable `{Host} : Engine → Prop :=
| reachable_mount initial now : reachable (mount initial now)
| reachable_step ev e : reachable e → reachable (step ev e).

(** ** Derived values and helpers of the view (source lines 75, 216-223,
       418-421) *)

Fixpoint join (sep : string) (l : list string) : string :=
  match l with
  | [] => ""
  | x :: rest =>
      match rest with
      | [] => x
      | _ :: _ => String.append x (String.append sep (join sep rest))
      end
  end.

(** The strings [filter(Boolean)] keeps of a [(string | false | undefined)[]];
    [None] stands for [false] and for [undefined]. *)
Definition truthyString (x : option string) : option string :=
  match x with
  | Some s => if String.eqb s "" then None else Some s
  | None => None
  end.

(** [clsx(...xs)]: [xs.filter(Boolean).join(" ")] *)
Definition clsx (xs : list (option string)) : string :=
  join " " (omap truthyString xs).

(** [values.reduce((a, b) => a + b, 0)], with [values] what
    [Object.values(points)] enumerates. *)
Definition total (values : list number) : number :=
  foldl numAdd (Int 0) values.

(** [Math.max(a, b)] *)
Definition numMax (a b : number) : number :=
  match a, b with
  | NaN, _ | _, NaN => NaN
  | Infinity false, _ | _, Infinity false => Infinity false
  | Infinity true, x | x, Infinity true => x
  | Int x, Int y => Int (Z.max x y)
  end.

(** [Math.max(...values)]; of no value it is [-Infinity]. *)
Definition mathMax (values : list number) : number :=
  foldl numMax (Infinity true) values.

(** [a === b] on numbers *)
Definition strictEq (a b : number) : bool :=
  match a, b with
  | Int x, Int y => Z.eqb x y
  | Infinity s, Infinity t => Bool.eqb s t
  | _, _ => false
  end.

(** [leader], as the pair [(max, top)], with [entries] what
    [Object.entries(points)] enumerates. *)
Definition leader (entries : list (string * number)) : number * list string :=
  let highest := mathMax (snd <$> entries) in
  (highest, fst <$> filter (λ entry, strictEq entry.2 highest = true) entries).

#[global] Instance House_eq_dec : EqDecision House.
Proof. solve_decision. Defined.

(** [filter === "Alle" ? history : history.filter((x) => x.house === filter)];
    [None] is the choice ["Alle"]. *)
Definition visibleHistory (choice : option House) (entries : list HistoryEntry)
    : list HistoryEntry :=
  match choice with
  | None => entries
  | Some h => filter (λ x, house x = h) entries
  end.

(** ** What [JSON.parse] reads back from [JSON.stringify]

    [JSON.stringify] writes a number that is not finite as [null] and leaves
    out a property whose value is [undefined]. *)

Definition numberJson (n : number) : json :=
  match n with
  | Int z => JNum z
  | NaN | Infinity _ => JNull
  end.

Definition entryJson (x : HistoryEntry) : json :=
  JObj (<["id" := JStr (id x)]> (<["house" := JStr (houseKey (house x))]>
    (<["delta" := numberJson (delta x)]> (<["timestamp" := JNum (timestamp x)]>
      (match reason x with
       | Some r => {["reason" := JStr r]}
       | None => ∅
       end))))).

Definition themeName (t : Theme) : string :=
  match t with
  | light => "light"
  | dark => "dark"
  end.

Definition stateJson (s : AppState) : json :=
  JObj (<["points" := JObj (numberJson <$> points s)]>
    (<["history" := JArr (entryJson <$> history s)]>
      (<["theme" := JStr (themeName (theme s))]>
        (<["bgUrl" := JStr (bgUrl s)]>
          (<["room" := JStr (room s)]>
            {["backend" := JStr (backendName (backend s))]}))))).

(** ** Predicates of the statements *)

Abbreviation chars := list_ascii_of_string.

(** Every character of [s] is in [[a-z0-9_-]]. *)
Definition allRoomChars (s : string) : Prop :=
  Forall (λ c, roomChar c = true) (chars s).

(** What the source relies on from [toLowerCase]: its result holds no
    letter of [A-Z], and it leaves a string of characters of [[a-z0-9_-]]
    as it is. *)
Definition lowerCaseLaws `{Host} : Prop :=
  (∀ s, Forall (λ c, inRange "A" "Z" c = false) (chars (toLowerCase s)))
  ∧ (∀ s, allRoomChars s → toLowerCase s = s).

(** [kept] is what is left of the newest-first sequence [full] when it is
    cut to [MAX_HISTORY] entries: the entries of [full] in their order, up
    to the last ones, and nothing is dropped unless the bound is reached. *)
Definition keepsNewest {A} (full kept : list A) : Prop :=
  (length kept ≤ MAX_HISTORY)%nat
  ∧ ∃ dropped, full = (kept ++ dropped)%list ∧ (dropped ≠ [] → length kept = MAX_HISTORY).

(** The property names of a JSON object. *)
Definition jsonKeys (j : json) : option (gset string) :=
  match j with
  | JObj props => Some (dom props)
  | _ => None
  end.

(** The rows an event delivers have exactly the four house keys. *)
Definition deliversHouseKeys (ev : event) : Prop :=
  match ev with
  | SelectDone (Some row) | Inbound (Some row) => dom (rowPoints row) = houseKeys
  | _ => True
  end.

(** The events by which the user changes the score. *)
Definition localMutation (ev : event) : bool :=
  match ev with
  | ApplyDelta _ _ _ _ => true
  | OnAdd _ _ amount _ _ => negb (Z.eqb (coerceAmount amount) 0)
  | ResetAll confirmed => confirmed
  | _ => false
  end.

(** After a first mutation, the rest of a burst: each further mutation
    comes [gap] after the one before it, and the host has had the occasion
    to run a timeout that is due. *)
Fixpoint burst (rest : list (Z * event)) : list event :=
  match rest with
  | [] => []
  | (gap, mutation) :: more => Elapse gap :: Timeout :: mutation :: burst more
  end.

(** The row the debounced callback gives to [upsert] when it runs in
    engine state [e] at clock reading [now]. *)
Definition pushOf (e : Engine) (now : Z) : Row :=
  {| rowId := room (state e); rowPoints := points (state e);
     rowHistory := history (state e); updated_at := toISOString now |}.

(** A pending timeout closes over the current [room], [points] and
    [history]. *)
Definition timerCurrent (e : Engine) : Prop :=
  ∀ t, timer e = Some t →
    pushRoom t = room (state e) ∧ pushPoints t = points (state e)
    ∧ pushHistory t = history (state e).

(** No snapshot can be read: the store cannot be accessed, holds no item or
    an empty one, or holds a text that is not JSON or is the JSON [null]. *)
Definition unreadable `{Host} (item : outcome (option string)) : Prop :=
  match item with
  | Thrown | Returned None => True
  | Returned (Some text) =>
      text = "" ∨ JSON_parse text = None ∨ JSON_parse text = Some JNull
  end.

(** The pending timeout was set at the current clock reading for the
    current [room], [points] and [history]. *)
Definition scheduled (e : Engine) : Prop :=
  timer e = Some {| due := clock e + DEBOUNCE; pushRoom := room (state e);
                    pushPoints := points (state e); pushHistory := history (state e) |}.

(** A room identifier in normal form: not empty, at most 64 characters, all
    of them in [[a-z0-9_-]]. *)
Definition roomNormal (r : string) : Prop :=
  r ≠ "" ∧ (String.length r ≤ 64)%nat ∧ allRoomChars r.

(** [entries] is ordered by falling timestamp and none is later than [now]. *)
Fixpoint newestFirst (now : Z) (entries : list HistoryEntry) : Prop :=
  match entries with
  | [] => True
  | x :: older => timestamp x ≤ now ∧ newestFirst (timestamp x) older
  end.

(** The history an event delivers, if any, is ordered by falling timestamp
    and not later than [now]. *)
Definition deliversOrdered (now : Z) (ev : event) : Prop :=
  match ev with
  | SelectDone (Some row) | Inbound (Some row) => newestFirst now (rowHistory row)
  | _ => True
  end.

(** Nothing of the remote side has been touched. *)
Definition neverSynced (e : Engine) : Prop :=
  timer e = None ∧ channel e = None ∧ upserts e = [] ∧ lastRemoteRef e = None
  ∧ net e = offline ∧ awaitingUpsert e = O ∧ awaitingSelect e = O.

(** The channel and the pending timeout are those of the current room, and
    there is none while sync is off. *)
Definition boundToRoom `{Host} (e : Engine) : Prop :=
  channel e = (if remoteActive (state e) then Some (room (state e)) else None)
  ∧ ∀ t, timer e = Some t →
      remoteActive (state e) = true ∧ pushRoom t = room (state e)
      ∧ due t ≤ clock e + DEBOUNCE.

(** The exact sum of the integers among [values], and the sum of their
    magnitudes. *)
Fixpoint sumOfIntegers (values : list number) : Z :=
  match values with
  | [] => 0
  | Int z :: rest => z + sumOfIntegers rest
  | _ :: rest => sumOfIntegers rest
  end.

Fixpoint sumOfMagnitudes (values : list number) : Z :=
  match values with
  | [] => 0
  | Int z :: rest => Z.abs z + sumOfMagnitudes rest
  | _ :: rest => sumOfMagnitudes rest
  end.

(** Every value is an integer. *)
Definition allIntegers (values : list number) : Prop :=
  Forall (λ v, ∃ z, v = Int z) values.

(** ** A host for ASCII text

    Used to run the definitions on concrete inputs. *)

Definition lowerChar (c : ascii) : ascii :=
  if inRange "A" "Z" c then ascii_of_N (N_of_ascii c + 32) else c.

Fixpoint lowerAscii (s : string) : string :=
  match s with
  | EmptyString => EmptyString
  | String c r => String (lowerChar c) (lowerAscii r)
  end.

Fixpoint dropSpaces (l : list ascii) : list ascii :=
  match l with
  | c :: r => if Ascii.eqb c " "%char then dropSpaces r else l
  | [] => []
  end.

Definition trimSpaces (s : string) : string :=
  string_of_list_ascii (rev (dropSpaces (rev (dropSpaces (chars s))))).

(** [ready] is the value of [supabaseReady] and [parse] the behaviour of
    [JSON.parse] on the texts of interest. *)
Definition asciiHost (ready : bool) (parse : string → option json) : Host :=
  {| toLowerCase := lowerAscii; trim := trimSpaces; JSON_parse := parse;
     supabaseReady := ready |}.

(** Concrete inputs: sync available and switched on, room ["demo"], every
    house at zero, no history. *)
Definition demoHost : Host := asciiHost true (λ _, None).

Definition demoState : AppState :=
  {| points := zeroPoints; history := []; theme := dark; bgUrl := "";
     room := "demo"; backend := supabase |}.

Definition demoEngine : Engine := @mount demoHost demoState 0.

(** A stored record and a remote row whose [points] lack three houses; the
    row's also has a key that is no house. *)
Definition partialData : json :=
  JObj {["points" := JObj {["Gryffindor" := JNum 1]}]}.

Definition partialRow : Row :=
  {| rowId := "demo";
     rowPoints := <["Gryffindor" := Int 1]> {["Muggles" := Int 7]};
     rowHistory := [];
     updated_at := Instant 1000 |}.

(** A remote row stamped a day before the epoch. *)
Definition oldRow : Row :=
  {| rowId := "demo";
     rowPoints := <["Ravenclaw" := Int 30]> zeroPoints;
     rowHistory := [];
     updated_at := Instant (-86400000) |}.

(** A burst of three mutations, 100 and then 399 after one another. *)
Definition demoFirst : event := ApplyDelta Gryffindor (Int 5) (Some "Schnellaktion") "entry-1".

Definition demoRest : list (Z * event) :=
  [(100, OnAdd minus Slytherin (Int 3) "late" "entry-2"); (399, ResetAll true)].

(** A full history, newest first: 200 entries with the timestamps 200 down
    to 1. *)
Definition fullHistory : list HistoryEntry :=
  (λ n : nat, {| id := "old"; house := Hufflepuff; delta := Int 1; reason := None;
                 timestamp := 200 - Z.of_nat n |}) <$> seq 0 200.

Definition fullEngine : Engine :=
  @mount demoHost (withData zeroPoints fullHistory demoState) 1000.

(** A host without the Supabase environment, and one whose store holds the
    record [writeLocal] makes of [demoState]. *)
Definition offlineHost : Host := asciiHost false (λ _, None).

Definition storedHost : Host := asciiHost false (λ _, Some (stateJson (toSave demoState))).

(** Entries of a [points] object with a tie at the top. *)
Definition demoEntries : list (string * number) :=
  [("Gryffindor", Int 10); ("Slytherin", Int 25); ("Ravenclaw", Int 25);
   ("Hufflepuff", Int (-5))].

(** The component 400 after one mutation, the timeout due. *)
Definition dueEngine : Engine := @run demoHost [demoFirst; Elapse 400] demoEngine.

(** Two more remote rows: one stamped 3000 with points and a history of its
    own, one stamped 2000. *)
Definition newRow : Row :=
  {| rowId := "demo";
     rowPoints := <["Hufflepuff" := Int 12]> zeroPoints;
     rowHistory := [{| id := "remote-1"; house := Hufflepuff; delta := Int 12;
                       reason := None; timestamp := 2900 |}];
     updated_at := Instant 3000 |}.

Definition tiedRow : Row :=
  {| rowId := "demo";
     rowPoints := <["Slytherin" := Int 1]> zeroPoints;
     rowHistory := [];
     updated_at := Instant 2000 |}.

(** * Properties *)

(** ** Room binding *)

Section RoomBinding.
Context `{Host}.

Lemma orElse_empty s : orElse s "" = s.
Proof. unfold orElse. by destruct (String.eqb_spec s ""). Qed.

Lemma orElse_chars l fallback :
  orElse (string_of_list_ascii l) fallback =
  match l with
  | [] => fallback
  | _ :: _ => string_of_list_ascii l
  end.
Proof. by destruct l. Qed.

Lemma sliceTo_chars n l :
  sliceTo n (string_of_list_ascii l) = string_of_list_ascii (take n l).
Proof. unfold sliceTo. by rewrite list_ascii_of_string_of_list_ascii. Qed.

Lemma filter_class_lower (l : list ascii) :
  Forall (λ c, inRange "A" "Z" c = false) l →
  filter (λ c, roomCharIgnoreCase c = true) l = filter (λ c, roomChar c = true) l.
Proof.
  induction 1 as [|c l Hc _ IH]; [done|].
  rewrite !filter_cons, IH. unfold roomCharIgnoreCase. rewrite Hc, orb_false_r.
  by repeat case_decide.
Qed.

Lemma filter_class_all (l : list ascii) :
  Forall (λ c, roomChar c = true) l →
  filter (λ c, roomCharIgnoreCase c = true) l = l.
Proof.
  induction 1 as [|c l Hc _ IH]; [done|].
  rewrite filter_cons, IH. unfold roomCharIgnoreCase. rewrite Hc.
  by case_decide.
Qed.

Lemma length_chars s : length (chars s) = String.length s.
Proof. induction s as [|c s IH]; simpl; [done|]. by rewrite IH. Qed.

(** The chain of [sanitizeRoom] as one expression over the characters of
    the lower-cased input. *)
Lemma sanitizeRoom_unfold x :
  lowerCaseLaws →
  sanitizeRoom x =
  match take 64 (filter (λ c, roomChar c = true) (chars (toLowerCase x))) with
  | [] => "demo"
  | kept => string_of_list_ascii kept
  end.
Proof.
  intros [Hup _]. unfold sanitizeRoom, stripDisallowed.
  rewrite orElse_empty, sliceTo_chars, orElse_chars, (filter_class_lower _ (Hup x)).
  by destruct (take 64 _).
Qed.

(** A non-empty string of at most 64 characters of the class is left as
    it is. *)
Lemma sanitizeRoom_fixed s :
  lowerCaseLaws → s ≠ "" → (String.length s ≤ 64)%nat → allRoomChars s →
  sanitizeRoom s = s.
Proof.
  intros [_ Hfix] Hne Hlen Hall. unfold sanitizeRoom, stripDisallowed.
  rewrite orElse_empty, (Hfix s Hall), sliceTo_chars, (filter_class_all _ Hall).
  rewrite take_ge by (rewrite length_chars; lia).
  rewrite string_of_list_ascii_of_string. unfold orElse.
  by destruct (String.eqb_spec s "").
Qed.

Lemma sanitizeRoom_shape x :
  lowerCaseLaws →
  sanitizeRoom x ≠ "" ∧ (String.length (sanitizeRoom x) ≤ 64)%nat
  ∧ allRoomChars (sanitizeRoom x).
Proof.
  intros Hlaws. rewrite (sanitizeRoom_unfold x Hlaws).
  set (l := filter _ _).
  assert (Hl : Forall (λ c, roomChar c = true) (take 64 l)).
  { apply Forall_take, Forall_forall. intros c Hc.
    by apply list_elem_of_filter in Hc as [Hc _]. }
  assert (Hn : (length (take 64 l) ≤ 64)%nat) by (rewrite length_take; lia).
  destruct (take 64 l) as [|c k] eqn:Hk.
  - split; [done|]. split; [simpl; lia|]. unfold allRoomChars. simpl.
    repeat constructor.
  - split; [done|]. unfold allRoomChars.
    rewrite <- length_chars, list_ascii_of_string_of_list_ascii. done.
Qed.

End RoomBinding.

Lemma lowerChar_not_upper c : inRange "A" "Z" (lowerChar c) = false.
Proof. destruct c as [[] [] [] [] [] [] [] []]; reflexivity. Qed.

Lemma lowerChar_roomChar c : roomChar c = true → lowerChar c = c.
Proof. destruct c as [[] [] [] [] [] [] [] []]; (reflexivity || discriminate). Qed.

Lemma asciiHost_lowerCaseLaws ready parse : @lowerCaseLaws (asciiHost ready parse).
Proof.
  split; simpl.
  - induction s as [|c s IH]; simpl; constructor; [apply lowerChar_not_upper | done].
  - induction s as [|c s IH]; simpl; [done|]. intros Hall.
    apply Forall_cons in Hall as [Hc Hs]. by rewrite (lowerChar_roomChar c Hc), (IH Hs).
Qed.

(** C7. [sanitizeRoom] is a total function of its string argument: its
    value is the first 64 characters of what remains of the lower-cased
    input after the characters outside [[a-z0-9_-]] are removed, or the
    fixed default ["demo"] when nothing remains (in particular for the empty
    string and for a string with no allowed character); the value is never
    empty, has at most 64 characters, all of them in the class; and
    [sanitizeRoom (sanitizeRoom x) = sanitizeRoom x]. *)
Theorem sanitizeRoom_total_idempotent `{Host} (x : string) :
  lowerCaseLaws →
  sanitizeRoom x =
    match take 64 (filter (λ c, roomChar c = true) (chars (toLowerCase x))) with
    | [] => "demo"
    | kept => string_of_list_ascii kept
    end
  ∧ sanitizeRoom "" = "demo"
  ∧ (Forall (λ c, roomChar c = false) (chars (toLowerCase x)) → sanitizeRoom x = "demo")
  ∧ sanitizeRoom x ≠ ""
  ∧ (String.length (sanitizeRoom x) ≤ 64)%nat
  ∧ allRoomChars (sanitizeRoom x)
  ∧ sanitizeRoom (sanitizeRoom x) = sanitizeRoom x.
Proof.
  intros Hlaws.
  destruct (sanitizeRoom_shape x Hlaws) as (Hne & Hlen & Hall).
  split; [by apply sanitizeRoom_unfold|].
  split.
  { rewrite (sanitizeRoom_unfold "" Hlaws).
    destruct Hlaws as [_ Hfix]. rewrite (Hfix ""); [done | constructor]. }
  split.
  { intros Hnone. rewrite (sanitizeRoom_unfold x Hlaws).
    replace (filter _ _) with (@nil ascii); [done|].
    symmetry. induction Hnone as [|c l Hc _ IH]; [done|].
    rewrite filter_cons, <- IH. case_decide; congruence. }
  repeat split; try done.
  by apply sanitizeRoom_fixed.
Qed.

(** The theorem at the input of the source's own run-time assertion,
    [sanitizeRoom("  KLasse7A !!!  ") === "klasse7a"]. *)
Lemma sanitizeRoom_total_idempotent_witness :
  @sanitizeRoom (asciiHost false (λ _, None)) "  KLasse7A !!!  " = "klasse7a"
  ∧ @sanitizeRoom (asciiHost false (λ _, None))
      (@sanitizeRoom (asciiHost false (λ _, None)) "  KLasse7A !!!  ")
    = @sanitizeRoom (asciiHost false (λ _, None)) "  KLasse7A !!!  ".
Proof.
  split; [reflexivity|].
  apply (@sanitizeRoom_total_idempotent (asciiHost false (λ _, None)) "  KLasse7A !!!  ").
  apply asciiHost_lowerCaseLaws.
Defined.

(** ** Durable local store *)

Section LocalStore.
Context `{Host}.

Lemma sanitizeRoomValue_string s : ∃ r, sanitizeRoomValue (Some (JStr s)) = Returned r.
Proof. unfold sanitizeRoomValue. destruct (truthy _); eauto. Qed.

(** The handler of [readLocal] returns the default snapshot. *)
Lemma readLocalCatch_returns param :
  ∃ r, readLocalCatch param =
       Returned {| points := zeroPointsJson; history := []; theme := dark; bgUrl := "";
                   room := r; backend := JStr (backendName defaultBackend) |}.
Proof.
  unfold readLocalCatch.
  destruct (sanitizeRoomValue_string (orElse (getRoomFromURL param) "demo")) as [r ->].
  by exists r.
Qed.

Lemma readField_object data name : data ≠ JNull → readField data name = Returned (getProp data name).
Proof. by destruct data. Qed.

(** [readLocal] returns either what its handler returns or the record its
    [try] block builds from the parsed text. *)
Lemma readLocal_cases item param :
  readLocal item param = readLocalCatch param
  ∨ ∃ text data r,
      item = Returned (Some text) ∧ text ≠ "" ∧ JSON_parse text = Some data ∧ data ≠ JNull
      ∧ readLocal item param =
        Returned {| points := nullish (getProp data "points") zeroPointsJson;
                    history := loadedHistory (getProp data "history");
                    theme := loadedTheme (getProp data "theme");
                    bgUrl := loadedBgUrl (getProp data "bgUrl");
                    room := r;
                    backend := loadedBackend (getProp data "backend") |}.
Proof.
  unfold readLocal, readLocalTry.
  destruct item as [[text|]|]; simpl; [|by left..].
  destruct (String.eqb_spec text "") as [|Htext]; [by left|].
  destruct (JSON_parse text) as [data|] eqn:Hparse; [|by left].
  assert (data = JNull ∨ data ≠ JNull) as [->|Hdata];
    [destruct data; by auto | by left |].
  rewrite !(readField_object _ _ Hdata). simpl.
  destruct (sanitizeRoomValue _) as [r|]; simpl; [|by left].
  right. by exists text, data, r.
Qed.

(** C8. [readLocal] never throws: whatever the store holds, it returns a
    snapshot. When nothing can be read (no access, no item, an empty or
    unparseable text, the JSON [null]) the snapshot is the default one, with
    the four houses at zero and an empty history; when the parsed data lacks
    [points] (or holds [null] there) the points are the default ones, and
    when its [history] is not an array the history is empty. *)
Theorem readLocal_never_throws (item param : outcome (option string)) :
  ∃ st, readLocal item param = Returned st
    ∧ (unreadable item →
         points st = zeroPointsJson ∧ history st = [] ∧ theme st = dark
         ∧ bgUrl st = "" ∧ backend st = JStr (backendName defaultBackend))
    ∧ (∀ text data, item = Returned (Some text) → JSON_parse text = Some data →
         (getProp data "points" = None ∨ getProp data "points" = Some JNull →
            points st = zeroPointsJson)
         ∧ ((∀ items, getProp data "history" ≠ Some (JArr items)) → history st = [])).
Proof.
  destruct (readLocalCatch_returns param) as [r0 Hcatch].
  destruct (readLocal_cases item param)
    as [Hdef | (text & data & r & -> & Htext & Hparse & Hdata & Hread)].
  - rewrite Hdef, Hcatch. eexists. split; [done|]. simpl. by repeat split.
  - rewrite Hread. eexists. split; [done|]. simpl. split.
    + intros [?|[?|?]]; congruence.
    + intros text' data' [= <-] Hparse'. rewrite Hparse in Hparse'.
      injection Hparse' as <-. split.
      * by intros [-> | ->].
      * intros Hnot. unfold loadedHistory.
        destruct (getProp data "history") as [[]|]; try done. by destruct (Hnot items).
Qed.

End LocalStore.

(** ** State reducer *)

(** Reduces the projections of an engine built by the field setters. *)
Ltac fields :=
  cbn [state lastRemoteRef net timer channel clock upserts awaitingUpsert awaitingSelect
       withState withRef setNet withTimer withChannel withClock withUpserts withSelects].

Section Reducer.
Context `{Host}.

Lemma state_setState update newObjects e :
  state (setState update newObjects e) = update (state e).
Proof.
  unfold setState, upsertEffect, subscriptionEffect, initialLoadEffect.
  repeat (case_match; simpl); done.
Qed.

Lemma lastRemoteRef_setState update newObjects e :
  lastRemoteRef (setState update newObjects e) = lastRemoteRef e.
Proof.
  unfold setState, upsertEffect, subscriptionEffect, initialLoadEffect.
  repeat (case_match; simpl); done.
Qed.

Lemma upserts_setState update newObjects e :
  upserts (setState update newObjects e) = upserts e
  ∧ awaitingUpsert (setState update newObjects e) = awaitingUpsert e
  ∧ clock (setState update newObjects e) = clock e.
Proof.
  unfold setState, upsertEffect, subscriptionEffect, initialLoadEffect.
  repeat (case_match; simpl); done.
Qed.

Lemma keepsNewest_take {A} (full : list A) : keepsNewest full (take MAX_HISTORY full).
Proof.
  split; [rewrite length_take; lia|].
  exists (drop MAX_HISTORY full). split; [by rewrite take_drop|].
  intros Hdrop. rewrite length_take.
  destruct (decide (length full ≤ MAX_HISTORY)%nat) as [Hle|]; [|lia].
  by rewrite drop_ge in Hdrop.
Qed.

Lemma history_applyDelta target d why uuid e :
  ∃ entry, house entry = target ∧ delta entry = d ∧ id entry = uuid
    ∧ timestamp entry = clock e
    ∧ history (state (applyDelta target d why uuid e))
      = take MAX_HISTORY (entry :: history (state e)).
Proof.
  unfold applyDelta. rewrite state_setState. unfold applyDeltaUpdate.
  eexists. by repeat split.
Qed.

Lemma dom_zeroPoints : dom zeroPoints = houseKeys.
Proof.
  unfold zeroPoints, houseKeys. rewrite !dom_insert_L, dom_empty_L. simpl. set_solver.
Qed.

Lemma houseKey_elem target : houseKey target ∈ houseKeys.
Proof. unfold houseKeys. destruct target; simpl; set_solver. Qed.

Lemma dom_applyDeltaUpdate target delta why uuid now prev :
  dom (points (applyDeltaUpdate target delta why uuid now prev))
  = {[houseKey target]} ∪ dom (points prev).
Proof. unfold applyDeltaUpdate. simpl. by rewrite dom_insert_L. Qed.

Lemma state_step_cases ev e :
  state (step ev e) = state e
  ∨ (∃ target d why uuid,
       state (step ev e) = applyDeltaUpdate target d why uuid (clock e) (state e))
  ∨ state (step ev e) = withData zeroPoints [] (state e)
  ∨ (∃ row, (ev = SelectDone (Some row) ∨ ev = Inbound (Some row))
       ∧ state (step ev e)
         = withData (rowPoints row) (take MAX_HISTORY (rowHistory row)) (state e))
  ∨ (points (state (step ev e)) = points (state e)
     ∧ history (state (step ev e)) = history (state e)).
Proof.
  destruct ev; cbn [step].
  - right; left. unfold applyDelta. rewrite state_setState. eauto.
  - unfold onAdd. case_match; [by left|].
    right; left. unfold applyDelta. rewrite state_setState. eauto.
  - unfold resetAll. destruct confirmed; cbn [negb]; [|by left].
    do 2 right; left. by rewrite state_setState.
  - do 4 right. by rewrite state_setState.
  - do 4 right. by rewrite state_setState.
  - do 4 right. by rewrite state_setState.
  - do 4 right. by rewrite state_setState.
  - unfold selectDone. destruct (awaitingSelect e); [by left|].
    destruct data as [row|]; fields; [|by left].
    do 3 right; left. exists row. rewrite state_setState. eauto.
  - destruct (channel e); [|by left]. unfold onChange.
    destruct new as [row|]; [|by left]. case_match; [|by left]. fields.
    do 3 right; left. exists row. rewrite state_setState. eauto.
  - case_match; by left.
  - repeat case_match; by left.
  - unfold upsertDone. case_match; by left.
Qed.

(** C4. Every operation that writes [history] leaves at most 200 entries,
    and what it leaves is the front (the newest entries, in their order) of
    the newest-first sequence it was given: [applyDelta] of the new entry
    followed by the previous history, the inbound merge and the initial
    remote load of the remote history, [writeLocal] of the history of the
    state it saves, [readLocal] of the stored array; [resetAll] leaves none.
    No step of the component takes a history of at most 200 entries above
    200. *)
Theorem history_bounded_newest_kept :
  (∀ target d why uuid e, ∃ entry,
      house entry = target ∧ delta entry = d
      ∧ keepsNewest (entry :: history (state e))
          (history (state (applyDelta target d why uuid e))))
  ∧ (∀ e, history (state (resetAll true e)) = [])
  ∧ (∀ remote e,
       state (onChange (Some remote) e) = state e
       ∨ keepsNewest (rowHistory remote) (history (state (onChange (Some remote) e))))
  ∧ (∀ row e,
       state (selectDone (Some row) e) = state e
       ∨ keepsNewest (rowHistory row) (history (state (selectDone (Some row) e))))
  ∧ (∀ accepts st saved,
       writeLocal accepts st = Returned saved → keepsNewest (history st) (history saved))
  ∧ (∀ item param st, readLocal item param = Returned st →
       (length (history st) ≤ MAX_HISTORY)%nat
       ∧ ∀ text data items,
           item = Returned (Some text) → JSON_parse text = Some data →
           getProp data "history" = Some (JArr items) →
           history st = [] ∨ keepsNewest items (history st))
  ∧ (∀ ev e, (length (history (state e)) ≤ MAX_HISTORY)%nat →
       (length (history (state (step ev e))) ≤ MAX_HISTORY)%nat).
Proof.
  split.
  { intros target d why uuid e.
    destruct (history_applyDelta target d why uuid e) as (entry & ? & ? & _ & _ & ->).
    exists entry. repeat split; try done; apply keepsNewest_take. }
  split.
  { intros e. unfold resetAll. cbn [negb]. by rewrite state_setState. }
  split.
  { intros remote e. unfold onChange. case_match; [|by left].
    right. fields. rewrite state_setState. apply keepsNewest_take. }
  split.
  { intros row e. unfold selectDone. case_match; [by left|].
    right. fields. rewrite state_setState. apply keepsNewest_take. }
  split.
  { intros accepts st saved. unfold writeLocal. case_match; [|done].
    intros [= <-]. apply keepsNewest_take. }
  split.
  { intros item param st Hread.
    destruct (readLocalCatch_returns param) as [r0 Hcatch].
    destruct (readLocal_cases item param)
      as [Hdef | (text & data & r & -> & Htext & Hparse & Hdata & Hread')].
    - rewrite Hdef, Hcatch in Hread. injection Hread as <-. simpl.
      split; [lia | by left].
    - rewrite Hread' in Hread. injection Hread as <-. simpl. split.
      + unfold loadedHistory. repeat case_match; simpl; try lia.
        rewrite length_take. lia.
      + intros text' data' items [= <-] Hparse' Hitems.
        rewrite Hparse in Hparse'. injection Hparse' as <-.
        rewrite Hitems. right. apply keepsNewest_take. }
  intros ev e Hlen.
  destruct (state_step_cases ev e)
    as [-> | [(target & d & why & uuid & ->) | [-> | [(row & _ & ->) | [_ ->]]]]];
    try done; unfold applyDeltaUpdate, withData; cbn [history].
  - rewrite length_take. lia.
  - cbn [length]. lia.
  - rewrite length_take. lia.
Qed.

Lemma jsonKeys_zeroPointsJson : jsonKeys zeroPointsJson = Some houseKeys.
Proof.
  unfold zeroPointsJson. cbn [jsonKeys]. apply (f_equal Some).
  unfold houseKeys. rewrite !dom_insert_L, dom_empty_L. simpl. set_solver.
Qed.

(** C5, as the code has it. The default points and those [resetAll] writes
    have exactly the four house keys, and [applyDelta] keeps them; the other
    writers adopt an object they are given without looking at its keys:
    a step of the component keeps exactly the four keys provided the remote
    row it delivers (if any) has them, and [readLocal] returns points with
    exactly the four keys provided the stored [points], when there is one
    other than [null], has them. *)
Theorem points_keys_kept_when_delivered :
  dom zeroPoints = houseKeys
  ∧ (∀ e, dom (points (state (resetAll true e))) = houseKeys)
  ∧ (∀ target d why uuid e,
       dom (points (state e)) = houseKeys →
       dom (points (state (applyDelta target d why uuid e))) = houseKeys)
  ∧ (∀ ev e,
       deliversHouseKeys ev → dom (points (state e)) = houseKeys →
       dom (points (state (step ev e))) = houseKeys)
  ∧ (∀ item param st,
       readLocal item param = Returned st →
       (∀ text data p,
          item = Returned (Some text) → JSON_parse text = Some data →
          getProp data "points" = Some p → p = JNull ∨ jsonKeys p = Some houseKeys) →
       jsonKeys (points st) = Some houseKeys).
Proof.
  assert (Hdelta : ∀ target d why uuid now prev,
            dom (points prev) = houseKeys →
            dom (points (applyDeltaUpdate target d why uuid now prev)) = houseKeys).
  { intros target d why uuid now prev Hdom. rewrite dom_applyDeltaUpdate, Hdom.
    apply subseteq_union_1_L, singleton_subseteq_l, houseKey_elem. }
  split; [apply dom_zeroPoints|].
  split.
  { intros e. unfold resetAll. cbn [negb]. rewrite state_setState. apply dom_zeroPoints. }
  split.
  { intros target d why uuid e Hdom. unfold applyDelta. rewrite state_setState. by apply Hdelta. }
  split.
  { intros ev e Hev Hdom.
    destruct (state_step_cases ev e)
      as [-> | [(target & d & why & uuid & ->) | [-> | [(row & Hrow & ->) | [-> _]]]]];
      [done | by apply Hdelta | apply dom_zeroPoints | | done].
    by destruct Hrow as [-> | ->]. }
  intros item param st Hread Hstored.
  destruct (readLocalCatch_returns param) as [r0 Hcatch].
  destruct (readLocal_cases item param)
    as [Hdef | (text & data & r & -> & Htext & Hparse & Hdata & Hread')].
  - rewrite Hdef, Hcatch in Hread. injection Hread as <-. apply jsonKeys_zeroPointsJson.
  - rewrite Hread' in Hread. injection Hread as <-. cbn [points].
    destruct (getProp data "points") as [p|] eqn:Hp; [|apply jsonKeys_zeroPointsJson].
    destruct (Hstored text data p eq_refl Hparse Hp) as [-> | Hkeys];
      [apply jsonKeys_zeroPointsJson|].
    by destruct p.
Qed.

(** C6. The operation that applies a delta from the form, [onAdd], coerces
    the amount to an integer magnitude [amt] (the absolute value of a finite
    amount, 0 for [NaN] and the infinities), the sign carrying the direction.
    When [amt] is zero it is a no-op: the component is returned as it was,
    so no entry is added to the history and the points are untouched.
    Otherwise the delta it applies is [sign * amt], which is not zero: one
    entry with this delta is put in front of the history and the points of
    the house change by it. *)
Theorem onAdd_zero_is_noop (sign : Sign) (target : House) (amount : number)
    (why uuid : string) (e : Engine) :
  (coerceAmount amount = 0 ↔ amount = NaN ∨ (∃ s, amount = Infinity s) ∨ amount = Int 0)
  ∧ (∀ z, amount = Int z → coerceAmount amount = Z.abs z)
  ∧ 0 ≤ coerceAmount amount
  ∧ (coerceAmount amount = 0 →
       onAdd sign target amount why uuid e = e
       ∧ history (state (onAdd sign target amount why uuid e)) = history (state e)
       ∧ points (state (onAdd sign target amount why uuid e)) = points (state e))
  ∧ (coerceAmount amount ≠ 0 →
       0 < coerceAmount amount
       ∧ signValue sign * coerceAmount amount ≠ 0
       ∧ onAdd sign target amount why uuid e
         = applyDelta target (Int (signValue sign * coerceAmount amount)) (Some why) uuid e
       ∧ (∃ entry,
            house entry = target
            ∧ delta entry = Int (signValue sign * coerceAmount amount)
            ∧ history (state (onAdd sign target amount why uuid e))
              = take MAX_HISTORY (entry :: history (state e)))
       ∧ points (state (onAdd sign target amount why uuid e))
         = <[houseKey target :=
               addToProperty (points (state e) !! houseKey target)
                 (Int (signValue sign * coerceAmount amount))]> (points (state e))).
Proof.
  assert (Hnonneg : 0 ≤ coerceAmount amount) by (destruct amount; simpl; lia).
  split.
  { destruct amount as [|s|z]; simpl; split; eauto; try lia;
      try (intros [?|[[? ?]|[= ->]]]; done).
    intros Hz. right; right. f_equal. lia. }
  split; [by intros z ->|]. split; [done|]. split.
  { intros Hz. unfold onAdd. by rewrite Hz. }
  intros Hnz.
  assert (Hcall : onAdd sign target amount why uuid e
                  = applyDelta target (Int (signValue sign * coerceAmount amount))
                      (Some why) uuid e).
  { unfold onAdd. by destruct (Z.eqb_spec (coerceAmount amount) 0). }
  split; [lia|]. split; [destruct sign; simpl; lia|]. split; [done|].
  rewrite Hcall. split.
  - destruct (history_applyDelta target (Int (signValue sign * coerceAmount amount))
                (Some why) uuid e) as (entry & ? & ? & _ & _ & ?).
    by exists entry.
  - unfold applyDelta. by rewrite state_setState.
Qed.

End Reducer.

(** Against C5 as stated: a stored record whose [points] has the single key
    [Gryffindor] is loaded as it is, and a remote row whose [points] has the
    keys [Gryffindor] and [Muggles] is adopted as it is by the initial
    load. *)
Lemma points_keys_counterexample :
  (∃ st, @readLocal (asciiHost true (λ _, Some partialData))
           (Returned (Some "stored")) (Returned None) = Returned st
     ∧ points st = JObj {["Gryffindor" := JNum 1]}
     ∧ jsonKeys (points st) ≠ Some houseKeys)
  ∧ @reachable demoHost (@step demoHost (SelectDone (Some partialRow)) demoEngine)
  ∧ points (state (@step demoHost (SelectDone (Some partialRow)) demoEngine))
    = <["Gryffindor" := Int 1]> {["Muggles" := Int 7]}
  ∧ dom (points (state (@step demoHost (SelectDone (Some partialRow)) demoEngine)))
    ≠ houseKeys.
Proof.
  assert (Hno : ∀ X : gset string, "Slytherin" ∉ X → X ≠ houseKeys).
  { intros X Hnot ->. apply Hnot. unfold houseKeys. simpl. set_solver. }
  split.
  { exists {| points := JObj {["Gryffindor" := JNum 1]}; history := []; theme := dark;
              bgUrl := ""; room := "demo"; backend := JStr "supabase" |}.
    split; [vm_compute; reflexivity|]. split; [reflexivity|].
    cbn [points jsonKeys]. intros Heq.
    apply (f_equal (default ∅)) in Heq. revert Heq. cbn [default]. apply Hno.
    rewrite dom_singleton_L. set_solver. }
  split; [apply reachable_step, reachable_mount|].
  assert (Hp : points (state (@step demoHost (SelectDone (Some partialRow)) demoEngine))
               = <["Gryffindor" := Int 1]> {["Muggles" := Int 7]}) by reflexivity.
  split; [done|]. rewrite Hp. apply Hno.
  rewrite dom_insert_L, dom_singleton_L, not_elem_of_union, !not_elem_of_singleton.
  by split.
Qed.

(** [applyDelta] on a full history: the new entry comes first, the entry
    with the smallest timestamp is gone, the others keep their order. *)
Example applyDelta_drops_oldest :
  length (history (state fullEngine)) = 200%nat
  ∧ history (state (@applyDelta demoHost Ravenclaw (Int 5) None "new" fullEngine))
    = {| id := "new"; house := Ravenclaw; delta := Int 5; reason := None;
         timestamp := 1000 |} :: take 199 fullHistory
  ∧ timestamp <$> last fullHistory = Some 1
  ∧ timestamp <$> last (history (state (@applyDelta demoHost Ravenclaw (Int 5) None
                                          "new" fullEngine)))
    = Some 2.
Proof. repeat split; vm_compute; reflexivity. Qed.

(** [readLocal] on an unparseable text and on a record that only holds a
    history. *)
Example readLocal_fallbacks :
  @readLocal (asciiHost false (λ _, None)) (Returned (Some "{not json")) (Returned None)
    = Returned {| points := zeroPointsJson; history := []; theme := dark; bgUrl := "";
                  room := "demo"; backend := JStr "local" |}
  ∧ @readLocal (asciiHost false (λ _, Some (JObj {["history" := JArr [JNum 1; JNum 2]]})))
      (Returned (Some "stored")) (Returned (Some "Klasse 7a"))
    = Returned {| points := zeroPointsJson; history := [JNum 1; JNum 2]; theme := dark;
                  bgUrl := ""; room := "klasse7a"; backend := JStr "local" |}
  ∧ @readLocal (asciiHost false (λ _, Some (JObj {["room" := JNum 7]})))
      (Returned (Some "stored")) (Returned None)
    = Returned {| points := zeroPointsJson; history := []; theme := dark; bgUrl := "";
                  room := "demo"; backend := JStr "local" |}.
Proof. repeat split; vm_compute; reflexivity. Qed.

(** [onAdd] at the amounts [NaN], [0] and [-3]: the first two change
    nothing, the third with the sign [minus] records the delta [-3]. *)
Example onAdd_amounts :
  @onAdd demoHost plus Gryffindor NaN "why" "entry-1" demoEngine = demoEngine
  ∧ @onAdd demoHost minus Gryffindor (Int 0) "why" "entry-1" demoEngine = demoEngine
  ∧ history (state (@onAdd demoHost minus Gryffindor (Int (-3)) " why " "entry-1"
                      demoEngine))
    = [{| id := "entry-1"; house := Gryffindor; delta := Int (-3); reason := Some "why";
          timestamp := 0 |}]
  ∧ points (state (@onAdd demoHost minus Gryffindor (Int (-3)) " why " "entry-1"
                     demoEngine))
    = <["Gryffindor" := Int (-3)]> zeroPoints.
Proof. repeat split; vm_compute; reflexivity. Qed.


(** ** Reconciliation *)

Section Reconciliation.
Context `{Host}.

Lemma timer_setState_new update e :
  timer (setState update true e) =
  if remoteActive (update (state e))
  then Some {| due := clock e + DEBOUNCE; pushRoom := room (update (state e));
               pushPoints := points (update (state e));
               pushHistory := history (update (state e)) |}
  else None.
Proof.
  unfold setState, upsertEffect, subscriptionEffect, initialLoadEffect.
  repeat (case_match; fields; simplify_eq/=); done.
Qed.

Lemma remoteActive_withData p h s : remoteActive (withData p h s) = remoteActive s.
Proof. done. Qed.

(** C1. With the cursor at time [T0] and an incoming snapshot stamped [T1],
    when [T1 > T0] the handler replaces the points by the snapshot's points
    and the history by the snapshot's history (cut to 200), leaves theme,
    background, room and backend as they are, and moves the cursor to the
    snapshot's stamp; when [T1 <= T0] it leaves the whole component, the
    cursor included, as it was. *)
Theorem inbound_merge_last_writer_wins (remote : Row) (e : Engine) (T0 T1 : Z) :
  lastRemoteRef e = Some (Instant T0) →
  updated_at remote = Instant T1 →
  (T0 < T1 →
     points (state (onChange (Some remote) e)) = rowPoints remote
     ∧ history (state (onChange (Some remote) e)) = take MAX_HISTORY (rowHistory remote)
     ∧ theme (state (onChange (Some remote) e)) = theme (state e)
     ∧ bgUrl (state (onChange (Some remote) e)) = bgUrl (state e)
     ∧ room (state (onChange (Some remote) e)) = room (state e)
     ∧ backend (state (onChange (Some remote) e)) = backend (state e)
     ∧ lastRemoteRef (onChange (Some remote) e) = Some (Instant T1))
  ∧ (T1 ≤ T0 → onChange (Some remote) e = e).
Proof.
  intros Hlast Hstamp. unfold onChange, acceptRemote. rewrite Hlast, Hstamp.
  cbn [refTruthy negb orb dateGt dateValue]. split.
  - intros Hlt. destruct (Z.ltb_spec T0 T1) as [_|]; [|lia].
    fields. rewrite state_setState. by repeat split.
  - intros Hle. by destruct (Z.ltb_spec T0 T1) as [|_]; [lia|].
Qed.


(** Closes the case of [step_writes] in which the step is a [setState] of
    new [points] and [history]. *)
Ltac writer :=
  right; do 2 eexists; fields; rewrite state_setState;
  split; [unfold applyDeltaUpdate; reflexivity|];
  split; [by rewrite !timer_setState_new|];
  split; apply upserts_setState.

(** Every step that gives [points] or [history] another value is a
    [setState] of new objects that keeps [room] and [backend]. *)
Lemma step_writes ev e :
  (points (state (step ev e)) = points (state e)
   ∧ history (state (step ev e)) = history (state e))
  ∨ ∃ p h, state (step ev e) = withData p h (state e)
      ∧ timer (step ev e) = timer (setState (withData p h) true e)
      ∧ clock (step ev e) = clock e
      ∧ upserts (step ev e) = upserts e.
Proof.
  destruct ev; cbn [step].
  - unfold applyDelta. writer.
  - unfold onAdd, applyDelta. case_match; [by left | writer].
  - unfold resetAll. destruct confirmed; cbn [negb]; [writer | by left].
  - left. by rewrite state_setState.
  - left. by rewrite state_setState.
  - left. by rewrite state_setState.
  - left. by rewrite state_setState.
  - unfold selectDone. destruct (awaitingSelect e); [by left|].
    destruct data as [row|]; [writer | by left].
  - destruct (channel e); [|by left]. unfold onChange.
    destruct new as [row|]; [|by left]. case_match; [writer | by left].
  - left. by case_match.
  - left. by repeat case_match.
  - left. unfold upsertDone. by case_match.
Qed.

Lemma scheduled_setState_new update e :
  remoteActive (update (state e)) = true → scheduled (setState update true e).
Proof.
  intros Hactive. unfold scheduled.
  rewrite timer_setState_new, state_setState, Hactive.
  by destruct (upserts_setState update true e) as (_ & _ & ->).
Qed.

Lemma timerCurrent_setState update newObjects e :
  timerCurrent e →
  newObjects = true
  ∨ (points (update (state e)) = points (state e)
     ∧ history (update (state e)) = history (state e)) →
  timerCurrent (setState update newObjects e).
Proof.
  intros Hcur Hkeeps t. unfold setState.
  destruct (String.eqb_spec (room (state e)) (room (update (state e)))) as [Hroom|];
    destruct (sameBackend _ _); cbn [andb negb orb];
    rewrite ?orb_true_r; try by (unfold upsertEffect; fields; case_match; intros [= <-]).
  destruct newObjects; cbn [orb].
  { by (unfold upsertEffect; fields; case_match; intros [= <-]). }
  destruct Hkeeps as [|[Hp Hh]]; [done|]. fields. intros Ht.
  destruct (Hcur t Ht) as (-> & -> & ->). by rewrite Hroom, Hp, Hh.
Qed.

Lemma timerCurrent_step ev e : timerCurrent e → timerCurrent (step ev e).
Proof.
  intros Hcur.
  destruct ev; cbn [step];
    unfold applyDelta, onAdd, resetAll, selectDone, onChange, upsertDone, timeoutFires;
    repeat case_match; try done;
    try (apply (timerCurrent_setState _ _ e Hcur); by auto);
    intros t; fields; apply (timerCurrent_setState _ true e Hcur); by auto.
Qed.

Lemma reachable_timerCurrent e : reachable e → timerCurrent e.
Proof.
  induction 1 as [initial now | ev e _ IH]; [|by apply timerCurrent_step].
  intros t. unfold mount, upsertEffect. fields. case_match; [|done].
  intros [= <-]. cbn [pushRoom pushPoints pushHistory].
  unfold subscriptionEffect, initialLoadEffect. by repeat (case_match; fields).
Qed.

(** C2, as the code has it. When the debounced callback runs it gives
    [upsert] the current [room], [points] and [history] with a stamp taken at
    that moment, and leaves the cursor as it is; the cursor is set when the
    awaited write has settled, to a second stamp taken then ([dt] later). *)
Theorem push_stamps_cursor_after_write (e : Engine) (t : Timer) (dt : Z) :
  reachable e → timer e = Some t → due t ≤ clock e → 0 ≤ dt →
  upserts (step Timeout e) = pushOf e (clock e) :: upserts e
  ∧ lastRemoteRef (step Timeout e) = lastRemoteRef e
  ∧ awaitingUpsert (step Timeout e) = S (awaitingUpsert e)
  ∧ lastRemoteRef (step UpsertDone (step (Elapse dt) (step Timeout e)))
    = Some (toISOString (clock e + dt)).
Proof.
  intros Hreach Ht Hdue Hdt.
  destruct (reachable_timerCurrent e Hreach t Ht) as (Hroom & Hpoints & Hhistory).
  cbn [step]. rewrite Ht.
  destruct (Z.leb_spec (due t) (clock e)) as [_|]; [|lia].
  destruct (Z.ltb_spec dt 0) as [|_]; [lia|].
  unfold timeoutFires, upsertDone, pushOf. fields.
  by rewrite Hroom, Hpoints, Hhistory.
Qed.

Lemma step_mutation e mutation :
  remoteActive (state e) = true → localMutation mutation = true →
  remoteActive (state (step mutation e)) = true
  ∧ scheduled (step mutation e)
  ∧ upserts (step mutation e) = upserts e
  ∧ clock (step mutation e) = clock e.
Proof.
  intros Hactive Hmut.
  destruct mutation; try discriminate Hmut; cbn [step localMutation] in *;
    unfold onAdd, applyDelta, resetAll.
  - rewrite state_setState. split; [done|]. split; [by apply scheduled_setState_new|].
    split; apply upserts_setState.
  - destruct (coerceAmount amount =? 0); [done|].
    rewrite state_setState. split; [done|]. split; [by apply scheduled_setState_new|].
    split; apply upserts_setState.
  - subst confirmed. cbn [negb].
    rewrite state_setState. split; [done|]. split; [by apply scheduled_setState_new|].
    split; apply upserts_setState.
Qed.

Lemma run_cons ev evs e : run (ev :: evs) e = run evs (step ev e).
Proof. done. Qed.

Lemma step_elapse dt e : 0 ≤ dt → step (Elapse dt) e = withClock (clock e + dt) e.
Proof. intros Hdt. cbn [step]. by destruct (Z.ltb_spec dt 0) as [|_]; [lia|]. Qed.

Lemma step_timeout_early t e : timer e = Some t → clock e < due t → step Timeout e = e.
Proof.
  intros Ht Hdue. cbn [step]. rewrite Ht.
  by destruct (Z.leb_spec (due t) (clock e)) as [|_]; [lia|].
Qed.

Lemma step_timeout_due t e :
  timer e = Some t → due t ≤ clock e → step Timeout e = timeoutFires t e.
Proof.
  intros Ht Hdue. cbn [step]. rewrite Ht.
  by destruct (Z.leb_spec (due t) (clock e)) as [_|]; [|lia].
Qed.

(** While mutations follow one another by less than the debounce delay,
    nothing is sent and the timeout is the one set by the last of them. *)
Lemma run_burst rest e :
  remoteActive (state e) = true → scheduled e →
  Forall (λ gm, 0 ≤ gm.1 < DEBOUNCE ∧ localMutation gm.2 = true) rest →
  remoteActive (state (run (burst rest) e)) = true
  ∧ scheduled (run (burst rest) e)
  ∧ upserts (run (burst rest) e) = upserts e.
Proof.
  intros Hactive Hsched Hrest. revert e Hactive Hsched.
  induction Hrest as [|[gap mutation] more [[Hgap0 Hgap] Hmut] _ IH];
    intros e Hactive Hsched; [done|].
  cbn [burst fst snd] in *. rewrite !run_cons, (step_elapse gap e Hgap0).
  rewrite (step_timeout_early _ (withClock (clock e + gap) e) Hsched)
    by (cbn [due clock withClock]; lia).
  destruct (step_mutation (withClock (clock e + gap) e) mutation Hactive Hmut)
    as (Hactive' & Hsched' & Hup & _).
  destruct (IH _ Hactive' Hsched') as (? & ? & ->). by rewrite Hup.
Qed.

(** When a scheduled timeout comes due it sends the current state once; it
    does not run before. *)
Lemma run_window e :
  scheduled e →
  upserts (run [Elapse DEBOUNCE; Timeout] e) = pushOf e (clock e + DEBOUNCE) :: upserts e
  ∧ timer (run [Elapse DEBOUNCE; Timeout] e) = None
  ∧ ∀ dt, 0 ≤ dt < DEBOUNCE →
      upserts (run [Elapse dt; Timeout] e) = upserts e
      ∧ timer (run [Elapse dt; Timeout] e) = timer e.
Proof.
  intros Hsched.
  assert (Hfire : run [Elapse DEBOUNCE; Timeout] e
                  = timeoutFires {| due := clock e + DEBOUNCE; pushRoom := room (state e);
                                    pushPoints := points (state e);
                                    pushHistory := history (state e) |}
                      (withClock (clock e + DEBOUNCE) e)).
  { rewrite !run_cons, (step_elapse DEBOUNCE e) by done.
    by apply step_timeout_due; [apply Hsched | cbn [due clock withClock]; lia]. }
  rewrite Hfire. split; [done|]. split; [done|].
  intros dt [Hdt0 Hdt]. rewrite !run_cons, (step_elapse dt e Hdt0).
  rewrite (step_timeout_early _ (withClock (clock e + dt) e) Hsched)
    by (cbn [due clock withClock]; lia).
  done.
Qed.

(** C3. Let [N >= 1] local mutations follow one another by less than the
    debounce delay of 400 each, sync being on. Then nothing is sent during
    the burst, and each mutation replaces the pending timeout by one due 400
    after it for the state it produced; nothing is sent sooner than 400
    after the last mutation, and when 400 have passed exactly one row is
    given to [upsert], carrying the state after the last mutation, and no
    timeout is left pending. *)
Theorem debounce_coalesces (e : Engine) (first : event) (rest : list (Z * event)) :
  remoteActive (state e) = true →
  localMutation first = true →
  Forall (λ gm, 0 ≤ gm.1 < DEBOUNCE ∧ localMutation gm.2 = true) rest →
  upserts (run (first :: burst rest) e) = upserts e
  ∧ scheduled (run (first :: burst rest) e)
  ∧ (∀ pending mutation,
       remoteActive (state pending) = true → localMutation mutation = true →
       scheduled (step mutation pending))
  ∧ (∀ dt, 0 ≤ dt < DEBOUNCE →
       upserts (run [Elapse dt; Timeout] (run (first :: burst rest) e)) = upserts e)
  ∧ upserts (run [Elapse DEBOUNCE; Timeout] (run (first :: burst rest) e))
    = pushOf (run (first :: burst rest) e)
        (clock (run (first :: burst rest) e) + DEBOUNCE) :: upserts e
  ∧ timer (run [Elapse DEBOUNCE; Timeout] (run (first :: burst rest) e)) = None.
Proof.
  intros Hactive Hfirst Hrest. rewrite run_cons.
  destruct (step_mutation e first Hactive Hfirst) as (Hactive1 & Hsched1 & Hup1 & _).
  destruct (run_burst rest _ Hactive1 Hsched1 Hrest) as (_ & Hsched & Hup).
  rewrite Hup1 in Hup.
  destruct (run_window _ Hsched) as (Hsent & Hnone & Hearly).
  split; [done|]. split; [done|]. split.
  { intros pending mutation Hp Hm. by destruct (step_mutation pending mutation Hp Hm) as (_ & ? & _). }
  split.
  { intros dt Hdt. destruct (Hearly dt Hdt) as [-> _]. done. }
  split; [|done]. by rewrite Hsent, Hup.
Qed.

(** A step that is a [setState] of new [points] and [history] leaves a
    timeout that sends them once the debounce delay has passed. *)
Lemma writes_echo ev e p h :
  remoteActive (state e) = true →
  state (step ev e) = withData p h (state e) →
  timer (step ev e) = timer (setState (withData p h) true e) →
  clock (step ev e) = clock e →
  upserts (step ev e) = upserts e →
  scheduled (step ev e)
  ∧ upserts (run [Elapse DEBOUNCE; Timeout] (step ev e))
    = {| rowId := room (state e); rowPoints := p; rowHistory := h;
         updated_at := toISOString (clock e + DEBOUNCE) |} :: upserts e.
Proof.
  intros Hactive Hstate Htimer Hclock Hup.
  assert (Hsched : scheduled (step ev e)).
  { unfold scheduled.
    by rewrite Htimer, timer_setState_new, remoteActive_withData, Hactive, Hstate, Hclock. }
  split; [done|].
  destruct (run_window _ Hsched) as (-> & _). unfold pushOf.
  by rewrite Hstate, Hclock, Hup.
Qed.

(** C9. While sync is on, every step that gives [points] or [history]
    another value, whatever its origin, leaves a timeout due 400 later for
    the new state, and when it runs the new state is given to [upsert]. In
    particular a remote snapshot merged in by the realtime handler, and one
    adopted by the initial load, is sent back to the remote store after the
    debounce delay. *)
Theorem data_change_schedules_push (e : Engine) :
  remoteActive (state e) = true →
  (∀ ev,
     points (state (step ev e)) ≠ points (state e)
     ∨ history (state (step ev e)) ≠ history (state e) →
     scheduled (step ev e)
     ∧ upserts (run [Elapse DEBOUNCE; Timeout] (step ev e))
       = pushOf (step ev e) (clock e + DEBOUNCE) :: upserts e)
  ∧ (∀ remote,
       channel e ≠ None → acceptRemote (lastRemoteRef e) (updated_at remote) = true →
       scheduled (step (Inbound (Some remote)) e)
       ∧ upserts (run [Inbound (Some remote); Elapse DEBOUNCE; Timeout] e)
         = {| rowId := room (state e); rowPoints := rowPoints remote;
              rowHistory := take MAX_HISTORY (rowHistory remote);
              updated_at := toISOString (clock e + DEBOUNCE) |} :: upserts e)
  ∧ (∀ row,
       awaitingSelect e ≠ O →
       scheduled (step (SelectDone (Some row)) e)
       ∧ upserts (run [SelectDone (Some row); Elapse DEBOUNCE; Timeout] e)
         = {| rowId := room (state e); rowPoints := rowPoints row;
              rowHistory := take MAX_HISTORY (rowHistory row);
              updated_at := toISOString (clock e + DEBOUNCE) |} :: upserts e).
Proof.
  intros Hactive. split; [|split].
  - intros ev Hchanged.
    destruct (step_writes ev e) as [[Hp Hh] | (p & h & Hstate & Htimer & Hclock & Hup)].
    { by destruct Hchanged. }
    destruct (writes_echo ev e p h Hactive Hstate Htimer Hclock Hup) as [Hsched ->].
    split; [done|]. unfold pushOf. by rewrite Hstate.
  - intros remote Hchannel Haccept. rewrite run_cons.
    apply writes_echo; try done; cbn [step]; destruct (channel e); try done;
      unfold onChange; rewrite Haccept; fields; try done;
      first [apply state_setState | apply upserts_setState].
  - intros row Hawait. rewrite run_cons.
    apply writes_echo; try done; cbn [step]; unfold selectDone;
      destruct (awaitingSelect e); try done; fields; try done;
      first [apply state_setState | apply upserts_setState].
Qed.

End Reconciliation.

(** The theorem with the cursor at 2000: a snapshot stamped 3000 replaces
    points and history and moves the cursor to 3000, a snapshot stamped 1000
    and one stamped 2000 change nothing. *)
Lemma inbound_merge_last_writer_wins_witness :
  lastRemoteRef (withRef (Some (Instant 2000)) demoEngine) = Some (Instant 2000)
  ∧ points (state demoEngine) = zeroPoints
  ∧ points (state (@onChange demoHost (Some newRow)
                     (withRef (Some (Instant 2000)) demoEngine)))
    = <["Hufflepuff" := Int 12]> zeroPoints
  ∧ history (state (@onChange demoHost (Some newRow)
                      (withRef (Some (Instant 2000)) demoEngine)))
    = [{| id := "remote-1"; house := Hufflepuff; delta := Int 12; reason := None;
          timestamp := 2900 |}]
  ∧ lastRemoteRef (@onChange demoHost (Some newRow)
                     (withRef (Some (Instant 2000)) demoEngine))
    = Some (Instant 3000)
  ∧ @onChange demoHost (Some partialRow) (withRef (Some (Instant 2000)) demoEngine)
    = withRef (Some (Instant 2000)) demoEngine
  ∧ @onChange demoHost (Some tiedRow) (withRef (Some (Instant 2000)) demoEngine)
    = withRef (Some (Instant 2000)) demoEngine.
Proof.
  split; [reflexivity|]. split; [reflexivity|].
  destruct (@inbound_merge_last_writer_wins demoHost newRow
              (withRef (Some (Instant 2000)) demoEngine) 2000 3000 eq_refl eq_refl)
    as [Hnewer _].
  destruct Hnewer as (Hpoints & Hhistory & _ & _ & _ & _ & Hcursor); [lia|].
  split; [exact Hpoints|]. split; [exact Hhistory|]. split; [exact Hcursor|].
  split.
  - apply (@inbound_merge_last_writer_wins demoHost partialRow
             (withRef (Some (Instant 2000)) demoEngine) 2000 1000);
      [reflexivity | reflexivity | lia].
  - apply (@inbound_merge_last_writer_wins demoHost tiedRow
             (withRef (Some (Instant 2000)) demoEngine) 2000 2000);
      [reflexivity | reflexivity | lia].
Defined.


(** Against C2 as stated: one mutation at time 0, the callback runs at 400
    and the write settles at 450. After the callback the row stamped 400 has
    been given to [upsert] and the cursor is still unset; after the write has
    settled the cursor holds the stamp 450. *)
Lemma push_cursor_counterexample :
  upserts (@run demoHost [demoFirst; Elapse 400; Timeout] demoEngine)
    = [{| rowId := "demo";
          rowPoints := <["Gryffindor" := Int 5]> zeroPoints;
          rowHistory := [{| id := "entry-1"; house := Gryffindor; delta := Int 5;
                            reason := Some "Schnellaktion"; timestamp := 0 |}];
          updated_at := Instant 400 |}]
  ∧ lastRemoteRef (@run demoHost [demoFirst; Elapse 400; Timeout] demoEngine) = None
  ∧ awaitingUpsert (@run demoHost [demoFirst; Elapse 400; Timeout] demoEngine) = 1%nat
  ∧ lastRemoteRef
      (@run demoHost [demoFirst; Elapse 400; Timeout; Elapse 50; UpsertDone] demoEngine)
    = Some (Instant 450).
Proof. repeat split; vm_compute; reflexivity. Qed.

(** The theorem on the same run. *)
Lemma push_stamps_cursor_after_write_witness :
  @reachable demoHost (@run demoHost [demoFirst; Elapse 400] demoEngine)
  ∧ lastRemoteRef (@step demoHost Timeout (@run demoHost [demoFirst; Elapse 400] demoEngine))
    = None
  ∧ lastRemoteRef
      (@step demoHost UpsertDone
         (@step demoHost (Elapse 50)
            (@step demoHost Timeout (@run demoHost [demoFirst; Elapse 400] demoEngine))))
    = Some (Instant 450).
Proof.
  assert (Hreach : @reachable demoHost (@run demoHost [demoFirst; Elapse 400] demoEngine)).
  { apply (@reachable_step demoHost (Elapse 400)), (@reachable_step demoHost demoFirst),
      (@reachable_mount demoHost). }
  split; [exact Hreach|].
  destruct (@push_stamps_cursor_after_write demoHost
              (@run demoHost [demoFirst; Elapse 400] demoEngine) _ 50 Hreach eq_refl)
    as (_ & Hsame & _ & Hlater); [vm_compute; discriminate | lia |].
  split; [exact Hsame | exact Hlater].
Defined.

(** The theorem on a burst of three mutations at times 0, 100 and 499: one
    row is sent, at 899, with the state the reset left. *)
Lemma debounce_coalesces_witness :
  @remoteActive demoHost (state demoEngine) = true
  ∧ upserts (@run demoHost [Elapse DEBOUNCE; Timeout]
               (@run demoHost (demoFirst :: burst demoRest) demoEngine))
    = [{| rowId := "demo"; rowPoints := zeroPoints; rowHistory := [];
          updated_at := Instant 899 |}].
Proof.
  split; [reflexivity|].
  destruct (@debounce_coalesces demoHost demoEngine demoFirst demoRest)
    as (_ & _ & _ & _ & Hsent & _); [reflexivity | reflexivity | | exact Hsent].
  unfold demoRest, DEBOUNCE.
  repeat (apply Forall_cons; split; [cbn [fst snd]; split; [lia | reflexivity]|]).
  apply Forall_nil; exact I.
Defined.

(** The theorem right after mounting: the merged snapshot is sent back at
    400. *)
Lemma data_change_schedules_push_witness :
  @remoteActive demoHost (state demoEngine) = true
  ∧ upserts (@run demoHost [Inbound (Some oldRow); Elapse DEBOUNCE; Timeout] demoEngine)
    = [{| rowId := "demo"; rowPoints := rowPoints oldRow; rowHistory := [];
          updated_at := Instant 400 |}].
Proof.
  split; [reflexivity|].
  destruct (@data_change_schedules_push demoHost demoEngine eq_refl) as (_ & Hmerge & _).
  destruct (Hmerge oldRow) as [_ Hecho]; [discriminate | reflexivity | exact Hecho].
Defined.

(** * Further properties of the component *)

(** ** Totals *)

Lemma roundToDouble_safe z : Z.abs z < SAFE → roundToDouble z = Int z.
Proof. intros Hz. unfold roundToDouble. by destruct (Z.ltb_spec (Z.abs z) SAFE); [|lia]. Qed.

(** Sums that leave the range of the exact integers are rounded:
    [2^53 + 1] is [2^53], [2^53 + 3] is [2^53 + 4], and
    [(1 + 10^16) - 10^16] is [0]. *)
Example numAdd_rounds :
  numAdd (Int 9007199254740992) (Int 1) = Int 9007199254740992
  ∧ numAdd (Int 9007199254740992) (Int 3) = Int 9007199254740996
  ∧ numAdd (numAdd (Int 1) (Int 10000000000000000)) (Int (-10000000000000000)) = Int 0
  ∧ numAdd (Int (2 ^ 1023)) (Int (2 ^ 1023)) = Infinity false.
Proof. repeat split; vm_compute; reflexivity. Qed.

Lemma numAdd_NaN_r a : numAdd a NaN = NaN.
Proof. by destruct a as [|[]|]. Qed.

Lemma foldl_numAdd_NaN values : foldl numAdd NaN values = NaN.
Proof. induction values as [|v values IH]; [done|]. cbn [foldl]. exact IH. Qed.

(** A value that is [NaN] makes the total [NaN], wherever it stands. *)
Lemma total_NaN values : NaN ∈ values → total values = NaN.
Proof.
  unfold total. generalize (Int 0). induction values as [|v values IH]; intros a.
  - by intros ?%elem_of_nil.
  - intros [<- | Hin]%elem_of_cons; cbn [foldl]; [|by apply IH].
    rewrite numAdd_NaN_r. apply foldl_numAdd_NaN.
Qed.

Lemma sumOfMagnitudes_nonneg values : 0 ≤ sumOfMagnitudes values.
Proof. induction values as [|[| |z] values IH]; simpl; lia. Qed.

Lemma sums_permutation values values' :
  values ≡ₚ values' →
  sumOfIntegers values = sumOfIntegers values'
  ∧ sumOfMagnitudes values = sumOfMagnitudes values'.
Proof.
  induction 1 as [|v l l' _ [IH1 IH2]|v w l|l l' l'' _ [IH1 IH2] _ [IH3 IH4]].
  - done.
  - destruct v; simpl; lia.
  - destruct v, w; simpl; lia.
  - lia.
Qed.

(** While the magnitudes sum to less than [2^53], the total of integers is
    their exact sum. *)
Lemma foldl_numAdd_exact a values :
  allIntegers values → Z.abs a + sumOfMagnitudes values < SAFE →
  foldl numAdd (Int a) values = Int (a + sumOfIntegers values).
Proof.
  intros Hall. revert a. induction Hall as [|? values [z ->] _ IH]; intros a Hsafe.
  - simpl. f_equal. lia.
  - cbn [foldl numAdd sumOfIntegers sumOfMagnitudes] in *.
    pose proof (sumOfMagnitudes_nonneg values).
    rewrite roundToDouble_safe by lia. rewrite IH by lia. f_equal. lia.
Qed.

Lemma total_exact values :
  allIntegers values → sumOfMagnitudes values < SAFE →
  total values = Int (sumOfIntegers values).
Proof. intros Hall Hsafe. unfold total. by rewrite foldl_numAdd_exact. Qed.

Section Points.
Context `{Host}.

Lemma points_applyDelta target d why uuid e :
  points (state (applyDelta target d why uuid e))
  = <[houseKey target := addToProperty (points (state e) !! houseKey target) d]>
      (points (state e)).
Proof. unfold applyDelta. by rewrite state_setState. Qed.

(** The values of a map with one of them replaced. *)
Lemma values_insert (p : gmap string number) k v w :
  p !! k = Some v →
  (map_to_list p).*2 ≡ₚ v :: (map_to_list (delete k p)).*2
  ∧ (map_to_list (<[k := w]> p)).*2 ≡ₚ w :: (map_to_list (delete k p)).*2.
Proof.
  intros Hk. split.
  - rewrite <- (map_to_list_delete p k v Hk). done.
  - rewrite <- insert_delete_eq, map_to_list_insert by apply lookup_delete_eq. done.
Qed.

(** X1. When every value of [points] is an integer, the target house among
    them, and the magnitudes of the values and of the delta sum to less than
    [2^53], [applyDelta] raises the total of the points by exactly the delta,
    however the values are enumerated. *)
Theorem total_applyDelta target (d : Z) why uuid e values values' :
  is_Some (points (state e) !! houseKey target) →
  values ≡ₚ (map_to_list (points (state e))).*2 →
  values' ≡ₚ (map_to_list (points (state (applyDelta target (Int d) why uuid e)))).*2 →
  allIntegers values →
  sumOfMagnitudes values + Z.abs d < SAFE →
  ∃ t, total values = Int t ∧ total values' = Int (t + d).
Proof.
  intros [v Hv] Hvalues Hvalues' Hall Hsafe.
  destruct (values_insert (points (state e)) (houseKey target) v
              (addToProperty (Some v) (Int d)) Hv) as [Hold Hnew].
  rewrite points_applyDelta, Hv, Hnew in Hvalues'. rewrite Hold in Hvalues.
  set (rest := (map_to_list (delete (houseKey target) (points (state e)))).*2) in *.
  assert (Hall' : allIntegers (v :: rest)).
  { unfold allIntegers. by rewrite <- Hvalues. }
  apply Forall_cons in Hall' as [[x ->] Hrest].
  destruct (sums_permutation _ _ Hvalues) as [Hsum Hmag].
  cbn [sumOfIntegers sumOfMagnitudes] in Hsum, Hmag.
  pose proof (sumOfMagnitudes_nonneg rest).
  cbn [addToProperty numAdd] in Hvalues'. rewrite roundToDouble_safe in Hvalues' by lia.
  destruct (sums_permutation _ _ Hvalues') as [Hsum' Hmag'].
  cbn [sumOfIntegers sumOfMagnitudes] in Hsum', Hmag'.
  exists (sumOfIntegers values). split.
  - apply total_exact; [done | lia].
  - rewrite total_exact; [f_equal; lia | | lia].
    unfold allIntegers. rewrite Hvalues'. constructor; [by eexists | done].
Qed.


(** X3. When the target house has no value in [points], [applyDelta] gives
    it the value [NaN]; every later [applyDelta] on that house leaves it at
    [NaN], and the total is [NaN]. *)
Theorem applyDelta_missing_house target d why uuid d' why' uuid' e values :
  points (state e) !! houseKey target = None →
  points (state (applyDelta target d why uuid e)) !! houseKey target = Some NaN
  ∧ points (state (applyDelta target d' why' uuid' (applyDelta target d why uuid e)))
      !! houseKey target = Some NaN
  ∧ (values ≡ₚ (map_to_list (points (state (applyDelta target d why uuid e)))).*2 →
     total values = NaN).
Proof.
  intros Hnone.
  assert (H1 : points (state (applyDelta target d why uuid e)) !! houseKey target
               = Some NaN).
  { by rewrite points_applyDelta, lookup_insert_eq, Hnone. }
  split; [done|]. split.
  - by rewrite points_applyDelta, lookup_insert_eq, H1.
  - intros Hvalues. apply total_NaN. rewrite Hvalues.
    apply list_elem_of_fmap. exists (houseKey target, NaN). split; [done|].
    by apply elem_of_map_to_list.
Qed.

End Points.

(** ** The leader *)

Lemma numMax_NaN_l a : numMax NaN a = NaN.
Proof. done. Qed.

Lemma foldl_numMax_NaN values : foldl numMax NaN values = NaN.
Proof. induction values as [|v values IH]; [done|]. cbn [foldl]. by rewrite numMax_NaN_l. Qed.

Lemma mathMax_NaN values : NaN ∈ values → mathMax values = NaN.
Proof.
  unfold mathMax. generalize (Infinity true). induction values as [|v values IH]; intros a.
  - by intros ?%elem_of_nil.
  - intros [<- | Hin]%elem_of_cons; cbn [foldl]; [|by apply IH].
    replace (numMax a NaN) with NaN by (by destruct a as [|[]|]).
    apply foldl_numMax_NaN.
Qed.

Lemma foldl_numMax_integers a values :
  Forall (λ v, ∃ z, v = Int z) values →
  ∃ z, foldl numMax (Int a) values = Int z ∧ a ≤ z
    ∧ (∀ v, Int v ∈ values → v ≤ z)
    ∧ (z = a ∨ Int z ∈ values).
Proof.
  intros Hall. revert a. induction Hall as [|? values [x ->] _ IH]; intros a.
  - exists a. repeat split; [lia | by intros ? ?%elem_of_nil | by left].
  - cbn [foldl numMax]. destruct (IH (Z.max a x)) as (z & -> & Hle & Hall & Hin).
    exists z. split; [done|]. split; [lia|]. split.
    + intros v [[= ->] | Hv]%elem_of_cons; [lia | by apply Hall].
    + destruct Hin as [-> | Hin]; [|right; by apply elem_of_cons; right].
      destruct (Z.max_spec a x) as [[_ ->] | [_ ->]]; [right; apply elem_of_cons|]; by left.
Qed.

Lemma mathMax_integers values :
  values ≠ [] → Forall (λ v, ∃ z, v = Int z) values →
  ∃ z, mathMax values = Int z ∧ (∀ v, Int v ∈ values → v ≤ z) ∧ Int z ∈ values.
Proof.
  intros Hne Hall. destruct Hall as [|? values [x ->] Hall]; [done|].
  unfold mathMax. cbn [foldl numMax].
  destruct (foldl_numMax_integers x values Hall) as (z & -> & Hle & Hmax & Hin).
  exists z. split; [done|]. split.
  - intros v [[= ->] | Hv]%elem_of_cons; [lia | by apply Hmax].
  - apply elem_of_cons. destruct Hin as [-> | Hin]; [by left | by right].
Qed.

Lemma strictEq_Int v z : strictEq v (Int z) = true ↔ v = Int z.
Proof.
  destruct v as [|s|x]; simpl; split; try done.
  - intros ->%Z.eqb_eq. done.
  - intros [= ->]. apply Z.eqb_refl.
Qed.

(** X4. When [points] has at least one entry and every value is an integer,
    [leader.max] is the greatest value, and [leader.top] is not empty and
    holds exactly the houses that have this value. *)
Theorem leader_integers (entries : list (string * number)) :
  entries ≠ [] →
  Forall (λ entry, ∃ z, entry.2 = Int z) entries →
  ∃ z, (leader entries).1 = Int z
    ∧ (∀ h v, (h, Int v) ∈ entries → v ≤ z)
    ∧ (leader entries).2 ≠ []
    ∧ (∀ h, h ∈ (leader entries).2 ↔ (h, Int z) ∈ entries).
Proof.
  intros Hne Hall.
  destruct (mathMax_integers (entries.*2)) as (z & Hmax & Hle & Hin).
  { by destruct entries. }
  { by apply Forall_fmap. }
  assert (Htop : ∀ h, h ∈ (leader entries).2 ↔ (h, Int z) ∈ entries).
  { intros h. unfold leader. cbn [snd]. rewrite Hmax, list_elem_of_fmap. split.
    - intros ([h' v] & -> & [Heq Hentry]%list_elem_of_filter).
      apply strictEq_Int in Heq. cbn [fst snd] in *. by subst v.
    - intros Hentry. exists (h, Int z). split; [done|].
      apply list_elem_of_filter. split; [by apply strictEq_Int | done]. }
  exists z. split; [done|]. split.
  - intros h v Hv. apply Hle, list_elem_of_fmap. by exists (h, Int v).
  - split; [|done].
    apply list_elem_of_fmap in Hin as ([h v] & Hv & Hentry). cbn [snd] in Hv. subst v.
    intros Hnil. apply Htop in Hentry. rewrite Hnil in Hentry. by apply elem_of_nil in Hentry.
Qed.

(** X5. When some value of [points] is [NaN], [leader.max] is [NaN] and
    [leader.top] is empty; of no entry at all, [leader.max] is [-Infinity]
    and [leader.top] is empty. *)
Theorem leader_without_top (entries : list (string * number)) :
  leader [] = (Infinity true, [])
  ∧ ((∃ h, (h, NaN) ∈ entries) → leader entries = (NaN, [])).
Proof.
  split; [done|]. intros [h Hh]. unfold leader.
  rewrite mathMax_NaN by (apply list_elem_of_fmap; by exists (h, NaN)).
  f_equal. replace (filter _ entries) with (@nil (string * number)); [done|].
  symmetry. clear Hh. induction entries as [|[k v] entries IH]; [done|].
  rewrite filter_cons, <- IH. case_decide as Heq; [|done].
  by destruct v.
Qed.

(** ** Class names and the history view *)

Lemma append_assoc (a b c : string) :
  String.append (String.append a b) c = String.append a (String.append b c).
Proof. induction a as [|x a IH]; [done | exact (f_equal (String x) IH)]. Qed.

Lemma join_cons sep x l :
  join sep (x :: l) = match l with [] => x | _ => String.append x (String.append sep (join sep l)) end.
Proof. done. Qed.

Lemma join_app sep l1 l2 :
  join sep (l1 ++ l2) =
  match l1, l2 with
  | [], _ => join sep l2
  | _, [] => join sep l1
  | _, _ => String.append (join sep l1) (String.append sep (join sep l2))
  end.
Proof.
  induction l1 as [|x l1 IH]; [done|].
  destruct l2 as [|y l2]; [by rewrite app_nil_r|].
  rewrite <- app_comm_cons, join_cons, IH.
  destruct l1 as [|x' l1]; [done|].
  rewrite <- app_comm_cons, (join_cons sep x (x' :: l1)). by rewrite !append_assoc.
Qed.

Lemma omap_truthy_nonempty xs : Forall (λ s, s ≠ "") (omap truthyString xs).
Proof.
  induction xs as [|[s|] xs IH]; simpl; try done.
  unfold truthyString. destruct (String.eqb_spec s ""); simpl; [done|]. by constructor.
Qed.

Lemma join_empty sep l : Forall (λ s, s ≠ "") l → join sep l = "" ↔ l = [].
Proof.
  intros Hl. split; [|by intros ->].
  destruct Hl as [|x l Hx _]; [done|]. rewrite join_cons.
  destruct x; [done|]. by destruct l.
Qed.

(** X18. [clsx] takes no account of [false], [undefined] and empty strings:
    it yields the empty string exactly when no argument is a non-empty
    string, and the class names of two argument lists put one after the other
    are those of each, joined by one space when neither is empty. *)
Theorem clsx_append (xs ys : list (option string)) :
  (clsx xs = "" ↔ Forall (λ x, truthyString x = None) xs)
  ∧ clsx (xs ++ ys) =
    if String.eqb (clsx xs) "" then clsx ys
    else if String.eqb (clsx ys) "" then clsx xs
    else String.append (clsx xs) (String.append " " (clsx ys)).
Proof.
  assert (Hempty : ∀ zs, clsx zs = "" ↔ omap truthyString zs = []).
  { intros zs. apply join_empty, omap_truthy_nonempty. }
  split.
  - rewrite Hempty. induction xs as [|x xs IH]; [done|]. cbn [omap list_omap].
    destruct (truthyString x) eqn:Hx; split.
    + done.
    + intros [? _]%Forall_cons. congruence.
    + intros Hxs. constructor; [done | by apply IH].
    + intros [_ Hxs]%Forall_cons. by apply IH.
  - unfold clsx at 1. rewrite omap_app, join_app.
    destruct (String.eqb_spec (clsx xs) "") as [Hx|Hx].
    { apply Hempty in Hx. by rewrite Hx. }
    destruct (String.eqb_spec (clsx ys) "") as [Hy|Hy].
    { apply Hempty in Hy. rewrite Hy. unfold clsx. by destruct (omap truthyString xs). }
    destruct (omap truthyString xs) eqn:Hox; [by apply Hempty in Hox|].
    destruct (omap truthyString ys) eqn:Hoy; [by apply Hempty in Hoy|].
    unfold clsx. by rewrite Hox, Hoy.
Qed.

Section HistoryView.
Context `{Host}.

(** X19. After [applyDelta] the history filtered by the target house begins
    with the new entry, and what follows it, like the history filtered by
    any other house, is the beginning of what that filter showed before:
    the view loses entries at its end only. *)
Theorem visibleHistory_applyDelta target d why uuid e :
  ∃ entry, house entry = target ∧ delta entry = d
    ∧ (∃ older,
         visibleHistory (Some target) (history (state (applyDelta target d why uuid e)))
           = entry :: older
         ∧ older `prefix_of` visibleHistory (Some target) (history (state e)))
    ∧ (∀ other, other ≠ target →
         visibleHistory (Some other) (history (state (applyDelta target d why uuid e)))
           `prefix_of` visibleHistory (Some other) (history (state e)))
    ∧ visibleHistory None (history (state (applyDelta target d why uuid e)))
      = take MAX_HISTORY (entry :: history (state e)).
Proof.
  destruct (history_applyDelta target d why uuid e) as (entry & Hhouse & Hdelta & _ & _ & ->).
  exists entry. split; [done|]. split; [done|].
  assert (Hpre : ∀ h, filter (λ x, house x = h) (take 199 (history (state e)))
                      `prefix_of` filter (λ x, house x = h) (history (state e))).
  { intros h. destruct (prefix_take (history (state e)) 199) as [rest Hrest].
    rewrite Hrest at 2. rewrite filter_app. by eexists. }
  change (take MAX_HISTORY (entry :: history (state e)))
    with (entry :: take 199 (history (state e))).
  cbn [visibleHistory]. split; [|split; [|done]].
  - eexists. split; [|apply (Hpre target)]. rewrite filter_cons. by case_decide.
  - intros other Hother. rewrite filter_cons. case_decide; [congruence | apply Hpre].
Qed.

End HistoryView.

(** ** Invariants of the component *)

Section Invariants.
Context `{Host}.

Lemma remoteActive_not_ready s :
  supabaseReady = false →
  remoteActive s = false ∧ isSupabase (effectiveBackend s) && supabaseReady = false.
Proof.
  intros Hready. unfold remoteActive. rewrite Hready.
  by rewrite !andb_false_r.
Qed.

Lemma effects_not_ready e :
  supabaseReady = false →
  initialLoadEffect e = setNet offline e
  ∧ subscriptionEffect e = withChannel None e
  ∧ upsertEffect e = withTimer None e.
Proof.
  intros Hready. destruct (remoteActive_not_ready (state e) Hready) as [Hactive Hsupa].
  unfold initialLoadEffect, subscriptionEffect, upsertEffect.
  by rewrite Hactive, Hsupa, andb_false_l.
Qed.

Lemma neverSynced_setState update newObjects e :
  supabaseReady = false → neverSynced e → neverSynced (setState update newObjects e).
Proof.
  intros Hready (Ht & Hc & Hu & Hr & Hn & Hau & Has). unfold setState.
  repeat case_match;
    repeat match goal with
           | |- context [initialLoadEffect ?x] =>
               destruct (effects_not_ready x Hready) as (-> & _ & _)
           | |- context [subscriptionEffect ?x] =>
               destruct (effects_not_ready x Hready) as (_ & -> & _)
           | |- context [upsertEffect ?x] =>
               destruct (effects_not_ready x Hready) as (_ & _ & ->)
           end;
    unfold neverSynced; fields; done.
Qed.

(** X6. When the environment gives no Supabase address or key
    ([supabaseReady] is false), the component never touches the remote side,
    whatever the stored [backend] and whatever happens: no timeout is ever
    pending, no channel open, no row given to [upsert], no [select] awaited,
    the cursor stays unset and the network status stays [offline]. *)
Theorem not_ready_never_syncs (e : Engine) :
  supabaseReady = false → reachable e → neverSynced e.
Proof.
  intros Hready. induction 1 as [initial now | ev e _ IH].
  - unfold mount.
    repeat match goal with
           | |- context [initialLoadEffect ?x] =>
               destruct (effects_not_ready x Hready) as (-> & _ & _)
           | |- context [subscriptionEffect ?x] =>
               destruct (effects_not_ready x Hready) as (_ & -> & _)
           | |- context [upsertEffect ?x] =>
               destruct (effects_not_ready x Hready) as (_ & _ & ->)
           end.
    by unfold neverSynced.
  - pose proof IH as (Ht & Hc & Hu & Hr & Hn & Hau & Has).
    destruct ev; cbn [step];
      unfold applyDelta, onAdd, resetAll, selectDone, upsertDone;
      rewrite ?Ht, ?Hc, ?Hau, ?Has;
      repeat case_match; try done; try by apply neverSynced_setState.
Qed.

Lemma remoteActive_same s s' :
  String.eqb (room s) (room s') && sameBackend (effectiveBackend s) (effectiveBackend s') = true →
  remoteActive s' = remoteActive s ∧ room s' = room s.
Proof.
  intros [Hroom Hback]%andb_true_iff. apply String.eqb_eq in Hroom.
  unfold remoteActive. rewrite Hroom. split; [|done].
  unfold sameBackend in Hback. apply Bool.eqb_prop in Hback. by rewrite Hback.
Qed.

Lemma boundToRoom_upsertEffect e :
  channel e = (if remoteActive (state e) then Some (room (state e)) else None) →
  boundToRoom (upsertEffect e).
Proof.
  intros Hchannel. unfold boundToRoom, upsertEffect. fields. split; [done|].
  destruct (remoteActive (state e)); [|done].
  intros t [= <-]. cbn [due pushRoom]. repeat split; lia.
Qed.

Lemma boundToRoom_effects e :
  boundToRoom (upsertEffect (subscriptionEffect (initialLoadEffect e))).
Proof.
  apply boundToRoom_upsertEffect. unfold subscriptionEffect. fields.
  unfold initialLoadEffect. by repeat case_match.
Qed.

Lemma boundToRoom_setState update newObjects e :
  boundToRoom e → boundToRoom (setState update newObjects e).
Proof.
  intros [Hchannel Htimer]. unfold setState.
  destruct (String.eqb (room (state e)) (room (update (state e)))
            && sameBackend (effectiveBackend (state e)) (effectiveBackend (update (state e))))
    eqn:Hsame; cbn [negb]; rewrite ?orb_true_r, ?orb_false_r;
    [|apply boundToRoom_effects].
  destruct (remoteActive_same _ _ Hsame) as [Hactive Hroom].
  destruct newObjects.
  - apply boundToRoom_upsertEffect. fields. by rewrite Hactive, Hroom.
  - unfold boundToRoom. fields. by rewrite Hactive, Hroom.
Qed.

(** X7. At every moment the realtime channel, if there is one, is that of
    the current room, and there is one exactly while sync is on; a pending
    timeout was set for the current room, at most 400 ago, and there is none
    while sync is off. *)
Theorem channel_and_timer_follow_room (e : Engine) : reachable e → boundToRoom e.
Proof.
  induction 1 as [initial now | ev e _ IH]; [apply boundToRoom_effects|].
  destruct ev; cbn [step];
    unfold applyDelta, onAdd, resetAll, selectDone, onChange, upsertDone, timeoutFires;
    repeat case_match; try done; try (by apply boundToRoom_setState);
    try (by apply (boundToRoom_setState _ true e IH)).
  - destruct IH as [Hchannel Htimer]. split; [done|]. fields. intros t Ht.
    destruct (Htimer t Ht) as (? & ? & ?). repeat split; try done.
    assert (0 ≤ dt) by (by apply Z.ltb_ge). lia.
  - destruct IH as [Hchannel _]. by split.
Qed.

(** X8. The network status is [syncing] only while a [select] or an
    [upsert] is awaited. *)
Theorem syncing_means_awaiting (e : Engine) :
  reachable e → net e = syncing → (0 < awaitingSelect e + awaitingUpsert e)%nat.
Proof.
  assert (Hset : ∀ update newObjects e',
            (net e' = syncing → (0 < awaitingSelect e' + awaitingUpsert e')%nat) →
            net (setState update newObjects e') = syncing →
            (0 < awaitingSelect (setState update newObjects e')
                 + awaitingUpsert (setState update newObjects e'))%nat).
  { intros update newObjects e' IH.
    unfold setState, upsertEffect, subscriptionEffect, initialLoadEffect.
    repeat (case_match; fields); try done; lia. }
  induction 1 as [initial now | ev e _ IH].
  - unfold mount, upsertEffect, subscriptionEffect, initialLoadEffect.
    repeat (case_match; fields); try done; lia.
  - destruct ev; cbn [step];
      unfold applyDelta, onAdd, resetAll, selectDone, onChange, upsertDone, timeoutFires;
      repeat case_match; fields; try done; try (by apply Hset); try lia;
      intros Hnet; specialize (IH Hnet); lia.
Qed.

End Invariants.

(** ** Pushes, echoes and late answers *)

Section Exchange.
Context `{Host}.

Lemma step_inbound_accepted remote e :
  channel e ≠ None → acceptRemote (lastRemoteRef e) (updated_at remote) = true →
  step (Inbound (Some remote)) e
  = withRef (Some (updated_at remote))
      (setState (withData (rowPoints remote) (take MAX_HISTORY (rowHistory remote))) true e).
Proof.
  intros Hchannel Haccept. cbn [step]. destruct (channel e); [|done].
  unfold onChange. by rewrite Haccept.
Qed.

Lemma step_inbound_rejected remote e :
  acceptRemote (lastRemoteRef e) (updated_at remote) = false →
  step (Inbound (Some remote)) e = e.
Proof.
  intros Haccept. cbn [step]. destruct (channel e); [|done].
  unfold onChange. by rewrite Haccept.
Qed.

(** X9. Once the write of a push has settled, the same row coming back over
    the realtime channel is discarded: the component stays as it is. *)
Theorem own_echo_discarded_after_write (e : Engine) (t : Timer) (dt : Z) :
  timer e = Some t → due t ≤ clock e → 0 ≤ dt →
  ∃ pushed,
    upserts (step Timeout e) = pushed :: upserts e
    ∧ updated_at pushed = toISOString (clock e)
    ∧ step (Inbound (Some pushed)) (run [Timeout; Elapse dt; UpsertDone] e)
      = run [Timeout; Elapse dt; UpsertDone] e.
Proof.
  intros Ht Hdue Hdt. rewrite !run_cons, (step_timeout_due t e Ht Hdue).
  rewrite step_elapse by done.
  eexists. split; [reflexivity|]. split; [reflexivity|].
  apply step_inbound_rejected. cbn [run foldl step].
  unfold upsertDone, timeoutFires. fields.
  cbn [acceptRemote refTruthy negb orb dateGt dateValue toISOString updated_at].
  apply Z.ltb_ge. lia.
Qed.

(** X10. When the row of a push comes back over the realtime channel before
    the write has settled, and the cursor is unset or older than the push, the
    row is merged like any other and sent again once the debounce delay has
    passed: a second row with the same points and history is given to
    [upsert]. *)
Theorem early_echo_is_pushed_again (e : Engine) (t : Timer) :
  remoteActive (state e) = true → channel e ≠ None →
  timer e = Some t → due t ≤ clock e →
  acceptRemote (lastRemoteRef e) (toISOString (clock e)) = true →
  ∃ pushed,
    upserts (step Timeout e) = pushed :: upserts e
    ∧ rowPoints pushed = pushPoints t ∧ rowHistory pushed = pushHistory t
    ∧ upserts (run [Timeout; Inbound (Some pushed); Elapse DEBOUNCE; Timeout] e)
      = {| rowId := room (state e); rowPoints := pushPoints t;
           rowHistory := take MAX_HISTORY (pushHistory t);
           updated_at := toISOString (clock e + DEBOUNCE) |} :: pushed :: upserts e.
Proof.
  intros Hactive Hchannel Ht Hdue Haccept.
  set (pushed := {| rowId := pushRoom t; rowPoints := pushPoints t;
                    rowHistory := pushHistory t;
                    updated_at := toISOString (clock e) |}).
  exists pushed. rewrite !run_cons, (step_timeout_due t e Ht Hdue).
  split; [reflexivity|]. split; [reflexivity|]. split; [reflexivity|].
  assert (Hstep : step (Inbound (Some pushed)) (timeoutFires t e)
                  = withRef (Some (updated_at pushed))
                      (setState (withData (rowPoints pushed)
                                   (take MAX_HISTORY (rowHistory pushed))) true
                         (timeoutFires t e))).
  { by apply step_inbound_accepted. }
  destruct (writes_echo (Inbound (Some pushed)) (timeoutFires t e)
              (pushPoints t) (take MAX_HISTORY (pushHistory t))) as [_ Hecho];
    try done; rewrite ?Hstep; fields; try done;
    first [apply state_setState | apply upserts_setState].
Qed.

Lemma sanitizeRoom_nonempty input : sanitizeRoom input ≠ "".
Proof.
  unfold sanitizeRoom. generalize (sliceTo 64 (stripDisallowed (toLowerCase (orElse input "")))).
  intros s. unfold orElse. by destruct (String.eqb_spec s "").
Qed.

(** The three effects, run one after the other while sync is on. *)
Lemma effects_active e :
  remoteActive (state e) = true →
  upsertEffect (subscriptionEffect (initialLoadEffect e))
  = {| state := state e; lastRemoteRef := lastRemoteRef e; net := syncing;
       timer := Some {| due := clock e + DEBOUNCE; pushRoom := room (state e);
                        pushPoints := points (state e);
                        pushHistory := history (state e) |};
       channel := Some (room (state e)); clock := clock e; upserts := upserts e;
       awaitingUpsert := awaitingUpsert e; awaitingSelect := S (awaitingSelect e) |}.
Proof.
  intros Hactive.
  assert (Hload : initialLoadEffect e = withSelects (S (awaitingSelect e)) (setNet syncing e)).
  { unfold initialLoadEffect. unfold remoteActive in Hactive.
    by destruct (isSupabase _), supabaseReady, (String.eqb (room (state e)) ""). }
  rewrite Hload. unfold upsertEffect, subscriptionEffect. fields. by rewrite Hactive.
Qed.

(** X11. While sync is on, entering another room opens the channel of that
    room, starts its [select] and sets the timeout anew: unless something
    replaces the state within the debounce delay, the points and history held
    locally are given to [upsert] under the new room. *)
Theorem room_change_pushes_local_state (input : string) (e : Engine) :
  remoteActive (state e) = true → sanitizeRoom input ≠ room (state e) →
  channel (step (SetRoom input) e) = Some (sanitizeRoom input)
  ∧ awaitingSelect (step (SetRoom input) e) = S (awaitingSelect e)
  ∧ net (step (SetRoom input) e) = syncing
  ∧ upserts (run [SetRoom input; Elapse DEBOUNCE; Timeout] e)
    = {| rowId := sanitizeRoom input; rowPoints := points (state e);
         rowHistory := history (state e);
         updated_at := toISOString (clock e + DEBOUNCE) |} :: upserts e.
Proof.
  intros Hactive Hroom.
  set (next := {| points := points (state e); history := history (state e);
                  theme := theme (state e); bgUrl := bgUrl (state e);
                  room := sanitizeRoom input; backend := backend (state e) |}).
  assert (Hactive' : remoteActive (state (withState next e)) = true).
  { unfold remoteActive in *. cbn [state withState room next].
    change (effectiveBackend next) with (effectiveBackend (state e)).
    destruct (String.eqb_spec (sanitizeRoom input) "") as [Hempty|_];
      [by destruct (sanitizeRoom_nonempty input)|].
    by destruct (isSupabase _), supabaseReady. }
  assert (Hstep : step (SetRoom input) e
                  = upsertEffect (subscriptionEffect (initialLoadEffect (withState next e)))).
  { cbn [step]. unfold setState. cbn [room].
    destruct (String.eqb_spec (room (state e)) (sanitizeRoom input)) as [Heq|_];
      [by destruct Hroom | done]. }
  rewrite run_cons, Hstep, (effects_active _ Hactive'). fields.
  repeat split.
  by destruct (run_window _ (eq_refl : scheduled
    {| state := next; lastRemoteRef := lastRemoteRef e; net := syncing;
       timer := Some {| due := clock e + DEBOUNCE; pushRoom := room next;
                        pushPoints := points next; pushHistory := history next |};
       channel := Some (room next); clock := clock e; upserts := upserts e;
       awaitingUpsert := awaitingUpsert e; awaitingSelect := S (awaitingSelect e) |}))
    as (-> & _).
Qed.

(** X12. When the component mounts with sync on, it starts the [select] of
    its room, opens the channel and sets the timeout: unless something
    replaces the state within the debounce delay, the points and history it
    started with are given to [upsert]. *)
Theorem mount_pushes_initial_state (initial : AppState) (now : Z) :
  remoteActive initial = true →
  channel (mount initial now) = Some (room initial)
  ∧ awaitingSelect (mount initial now) = 1%nat
  ∧ net (mount initial now) = syncing
  ∧ upserts (run [Elapse DEBOUNCE; Timeout] (mount initial now))
    = [{| rowId := room initial; rowPoints := points initial;
          rowHistory := history initial;
          updated_at := toISOString (now + DEBOUNCE) |}].
Proof.
  intros Hactive. unfold mount.
  rewrite (effects_active
             {| state := initial; lastRemoteRef := None; net := offline; timer := None;
                channel := None; clock := now; upserts := []; awaitingUpsert := 0;
                awaitingSelect := 0 |} Hactive). fields.
  repeat split.
  by destruct (run_window _ (eq_refl : scheduled
    {| state := initial; lastRemoteRef := None; net := syncing;
       timer := Some {| due := now + DEBOUNCE; pushRoom := room initial;
                        pushPoints := points initial; pushHistory := history initial |};
       channel := Some (room initial); clock := now; upserts := [];
       awaitingUpsert := 0; awaitingSelect := 1 |})) as (-> & _).
Qed.

Lemma awaitingSelect_setState_data p h newObjects e :
  awaitingSelect (setState (withData p h) newObjects e) = awaitingSelect e.
Proof.
  unfold setState. cbn [room withData].
  change (effectiveBackend (withData p h (state e))) with (effectiveBackend (state e)).
  unfold sameBackend. rewrite String.eqb_refl, Bool.eqb_reflx. cbn [andb negb].
  rewrite orb_false_r. by destruct newObjects.
Qed.

(** X16. The answer of the initial [select] is adopted without a look at
    the cursor: after a newer snapshot has been merged, a row stamped no later
    that comes as the answer of the [select] replaces it and takes the cursor
    back to its own stamp, whereas the same row coming over the realtime
    channel is discarded. *)
Theorem select_answer_overrides_newer_merge (e : Engine) (newer older : Row) (T0 T1 : Z) :
  channel e ≠ None → awaitingSelect e ≠ O →
  acceptRemote (lastRemoteRef e) (updated_at newer) = true →
  updated_at newer = Instant T1 → updated_at older = Instant T0 → T0 ≤ T1 →
  points (state (run [Inbound (Some newer); SelectDone (Some older)] e)) = rowPoints older
  ∧ history (state (run [Inbound (Some newer); SelectDone (Some older)] e))
    = take MAX_HISTORY (rowHistory older)
  ∧ lastRemoteRef (run [Inbound (Some newer); SelectDone (Some older)] e)
    = Some (Instant T0)
  ∧ run [Inbound (Some newer); Inbound (Some older)] e = run [Inbound (Some newer)] e.
Proof.
  intros Hchannel Hawait Haccept Hnewer Holder Hle.
  cbn [run foldl]. rewrite (step_inbound_accepted newer e Hchannel Haccept).
  assert (Hselect : step (SelectDone (Some older))
            (withRef (Some (updated_at newer))
               (setState (withData (rowPoints newer) (take MAX_HISTORY (rowHistory newer)))
                  true e))
          = match awaitingSelect e with
            | O => e
            | S n =>
                withSelects n (setNet online (withRef (Some (updated_at older))
                  (setState (withData (rowPoints older) (take MAX_HISTORY (rowHistory older)))
                     true
                     (withRef (Some (updated_at newer))
                        (setState (withData (rowPoints newer)
                                     (take MAX_HISTORY (rowHistory newer))) true e)))))
            end).
  { cbn [step]. unfold selectDone. fields.
    rewrite awaitingSelect_setState_data. by destruct (awaitingSelect e). }
  rewrite Hselect. destruct (awaitingSelect e); [done|]. fields.
  rewrite state_setState. split; [done|]. split; [done|]. split; [by rewrite Holder|].
  apply step_inbound_rejected. fields. rewrite Hnewer, Holder.
  cbn [acceptRemote refTruthy negb orb dateGt dateValue]. apply Z.ltb_ge. lia.
Qed.

End Exchange.

(** ** Rooms, the stored record and the order of the history *)

Section Rooms.
Context `{Host}.

Lemma sanitizeRoom_normal input : lowerCaseLaws → roomNormal (sanitizeRoom input).
Proof. intros Hlaws. apply (sanitizeRoom_shape input Hlaws). Qed.

Lemma sanitizeRoomValue_normal v r :
  lowerCaseLaws → sanitizeRoomValue v = Returned r → roomNormal r.
Proof.
  intros Hlaws. unfold sanitizeRoomValue.
  destruct (truthy v); [destruct v as [[]|]|]; intros [= <-]; by apply sanitizeRoom_normal.
Qed.

Lemma readLocal_room item param st :
  readLocal item param = Returned st → ∃ v, sanitizeRoomValue v = Returned (room st).
Proof.
  assert (Hcatch : readLocalCatch param = Returned st →
                   ∃ v, sanitizeRoomValue v = Returned (room st)).
  { unfold readLocalCatch. destruct (sanitizeRoomValue _) as [r|] eqn:Hr; [|done].
    intros [= <-]. eauto. }
  unfold readLocal, readLocalTry.
  destruct item as [[text|]|]; simpl; try done.
  destruct (String.eqb text ""); [done|].
  destruct (JSON_parse text) as [data|]; [|done].
  assert (data = JNull ∨ data ≠ JNull) as [->|Hdata]; [destruct data; by auto | done |].
  rewrite !(readField_object _ _ Hdata). simpl.
  destruct (sanitizeRoomValue _) as [r|] eqn:Hr; simpl; [|done].
  intros [= <-]. eauto.
Qed.

(** X13. Whatever the store and the page address hold, the room
    [readLocal] returns is in normal form: not empty, at most 64 characters,
    all in [[a-z0-9_-]]; and [getRoomFromURL] returns the empty string or a
    room in normal form. *)
Theorem readLocal_room_normal (item param : outcome (option string)) (st : RawState) :
  lowerCaseLaws →
  readLocal item param = Returned st →
  roomNormal (room st)
  ∧ (getRoomFromURL param = "" ∨ roomNormal (getRoomFromURL param)).
Proof.
  intros Hlaws Hread. split.
  - destruct (readLocal_room item param st Hread) as [v Hv].
    by apply (sanitizeRoomValue_normal v).
  - unfold getRoomFromURL. destruct param as [[r|]|]; try by left.
    destruct (String.eqb r ""); [by left | right; by apply sanitizeRoom_normal].
Qed.

Lemma room_step ev e :
  room (state (step ev e)) = room (state e)
  ∨ ∃ input, room (state (step ev e)) = sanitizeRoom input.
Proof.
  destruct ev; cbn [step];
    unfold onAdd, applyDelta, resetAll, selectDone, onChange, upsertDone, timeoutFires;
    repeat case_match; fields; rewrite ?state_setState; try (by left).
  right. by eexists.
Qed.

(** X14. A room in normal form stays in normal form whatever happens: the
    only step that changes the room sanitizes what the user typed. In
    particular the room never becomes empty, so the guards on an empty room
    never stop an effect. *)
Theorem room_stays_normal (evs : list event) (e : Engine) :
  lowerCaseLaws → roomNormal (room (state e)) →
  roomNormal (room (state (run evs e)))
  ∧ remoteActive (state (run evs e))
    = isSupabase (effectiveBackend (state (run evs e))) && supabaseReady.
Proof.
  intros Hlaws. revert e. induction evs as [|ev evs IH]; intros e Hnormal.
  - split; [done|]. cbn [run foldl]. unfold remoteActive.
    destruct Hnormal as [Hne _]. destruct (String.eqb_spec (room (state e)) ""); [done|].
    by destruct (isSupabase _), supabaseReady.
  - rewrite run_cons. apply IH.
    destruct (room_step ev e) as [-> | [input ->]]; [done | by apply sanitizeRoom_normal].
Qed.

Lemma getProp_stateJson s :
  getProp (stateJson s) "points" = Some (JObj (numberJson <$> points s))
  ∧ getProp (stateJson s) "history" = Some (JArr (entryJson <$> history s))
  ∧ getProp (stateJson s) "theme" = Some (JStr (themeName (theme s)))
  ∧ getProp (stateJson s) "bgUrl" = Some (JStr (bgUrl s))
  ∧ getProp (stateJson s) "room" = Some (JStr (room s))
  ∧ getProp (stateJson s) "backend" = Some (JStr (backendName (backend s))).
Proof. unfold stateJson, getProp. repeat split; by simplify_map_eq. Qed.

Lemma readLocal_parsed text data param r :
  text ≠ "" → JSON_parse text = Some data → data ≠ JNull →
  sanitizeRoomValue
    (if truthy (getProp data "room") then getProp data "room"
     else Some (JStr (orElse (getRoomFromURL param) "demo"))) = Returned r →
  readLocal (Returned (Some text)) param
  = Returned {| points := nullish (getProp data "points") zeroPointsJson;
                history := loadedHistory (getProp data "history");
                theme := loadedTheme (getProp data "theme");
                bgUrl := loadedBgUrl (getProp data "bgUrl");
                room := r;
                backend := loadedBackend (getProp data "backend") |}.
Proof.
  intros Htext Hparse Hdata Hroom. unfold readLocal, readLocalTry. simpl.
  destruct (String.eqb_spec text "") as [|_]; [done|].
  rewrite Hparse, !(readField_object _ _ Hdata). simpl. by rewrite Hroom.
Qed.

(** X15. What [writeLocal] stores is what [readLocal] returns, when the
    room is in normal form: the points (a value that is not finite is read
    back as [null]), the first 200 entries of the history, the theme, the
    background, the room and the backend, each as JSON gives it back. *)
Theorem readLocal_after_writeLocal (accepts : AppState → bool) (st saved : AppState)
    (text : string) (param : outcome (option string)) :
  lowerCaseLaws →
  writeLocal accepts st = Returned saved →
  text ≠ "" → JSON_parse text = Some (stateJson saved) →
  roomNormal (room st) →
  readLocal (Returned (Some text)) param
  = Returned {| points := JObj (numberJson <$> points st);
                history := entryJson <$> take MAX_HISTORY (history st);
                theme := theme st; bgUrl := bgUrl st; room := room st;
                backend := JStr (backendName (backend st)) |}.
Proof.
  intros Hlaws Hwrite Htext Hparse (Hne & Hlen & Hchars).
  unfold writeLocal in Hwrite. destruct (accepts (toSave st)); [|done].
  injection Hwrite as <-.
  destruct (getProp_stateJson (toSave st)) as (Hp & Hh & Ht & Hb & Hr & Hk).
  assert (Htruthy : truthy (Some (JStr (room st))) = true).
  { cbn [truthy]. by destruct (String.eqb_spec (room st) ""). }
  rewrite (readLocal_parsed text (stateJson (toSave st)) param (room st)); try done.
  - rewrite Hp, Hh, Ht, Hb, Hk. cbn [toSave points history theme bgUrl room backend].
    do 2 f_equal.
    + unfold loadedHistory. by rewrite <- fmap_take, take_take, Nat.min_id.
    + by destruct (theme st).
    + unfold loadedBackend. by destruct (backend st).
  - rewrite Hr. cbn [toSave room]. rewrite Htruthy. unfold sanitizeRoomValue.
    by rewrite Htruthy, (sanitizeRoom_fixed (room st) Hlaws Hne Hlen Hchars).
Qed.

Lemma newestFirst_mono now now' entries :
  now ≤ now' → newestFirst now entries → newestFirst now' entries.
Proof. destruct entries as [|x older]; [done|]. intros Hle [Hx Holder]. split; [lia | done]. Qed.

Lemma newestFirst_take n now entries :
  newestFirst now entries → newestFirst now (take n entries).
Proof.
  revert now entries. induction n as [|n IH]; intros now [|x older]; try done.
  intros [Hx Holder]. split; [done | by apply IH].
Qed.

(** X17. The history stays ordered by falling timestamp, none later than
    the clock, as long as the histories that come from the remote side are
    ordered so: the mutations of the user put the entry of the moment in
    front, and cutting to 200 keeps the order. *)
Theorem history_stays_newest_first (ev : event) (e : Engine) :
  deliversOrdered (clock e) ev →
  newestFirst (clock e) (history (state e)) →
  newestFirst (clock (step ev e)) (history (state (step ev e))).
Proof.
  intros Hev Hsorted.
  assert (Hdelta : ∀ target d why uuid,
            newestFirst (clock e)
              (history (applyDeltaUpdate target d why uuid (clock e) (state e)))).
  { intros. unfold applyDeltaUpdate, withData. cbn [history].
    apply newestFirst_take. split; [cbn [timestamp]; lia | done]. }
  destruct ev; cbn [step deliversOrdered] in *;
    unfold onAdd, applyDelta, resetAll, selectDone, onChange, upsertDone, timeoutFires;
    repeat case_match; fields;
    rewrite ?state_setState;
    repeat match goal with
           | |- context [clock (setState ?u ?b ?x)] =>
               destruct (upserts_setState u b x) as (_ & _ & ->)
           end;
    try done; try (by apply Hdelta); try (by apply newestFirst_take).
  apply (newestFirst_mono (clock e)); [|done].
  assert (0 ≤ dt) by (by apply Z.ltb_ge). lia.
Qed.

End Rooms.

(** ** The further properties on concrete inputs *)

Lemma reachable_run `{Host} evs e : reachable e → reachable (run evs e).
Proof.
  revert e. induction evs as [|ev evs IH]; intros e He; [done|].
  rewrite run_cons. by apply IH, reachable_step.
Qed.

Lemma roomNormal_demo : roomNormal "demo".
Proof. split; [done|]. split; [simpl; lia|]. unfold allRoomChars. simpl. by repeat constructor. Qed.

Lemma total_applyDelta_witness :
  allIntegers (map_to_list (points (state dueEngine))).*2
  ∧ total (map_to_list (points (state dueEngine))).*2 = Int 5
  ∧ total (map_to_list (points (state (@applyDelta demoHost Slytherin (Int (-7)) None
                                         "entry-2" dueEngine)))).*2 = Int (-2).
Proof.
  assert (Hall : allIntegers (map_to_list (points (state dueEngine))).*2).
  { apply Forall_forall. intros v [[k w] [-> Hkw]]%list_elem_of_fmap.
    apply elem_of_map_to_list in Hkw. cbn [snd].
    assert (Hcases : ∀ key, points (state dueEngine) !! key = Some w → ∃ z, w = Int z).
    { intros key.
      replace (points (state dueEngine)) with (<["Gryffindor" := Int 5]> zeroPoints)
        by reflexivity.
      unfold zeroPoints. rewrite !lookup_insert. repeat case_decide; try done;
        intros [= <-]; by eexists. }
    by apply (Hcases k). }
  split; [exact Hall|].
  destruct (@total_applyDelta demoHost Slytherin (-7) None "entry-2" dueEngine
              (map_to_list (points (state dueEngine))).*2
              (map_to_list (points (state (@applyDelta demoHost Slytherin (Int (-7)) None
                                             "entry-2" dueEngine)))).*2)
    as (t & Ht & Ht'); [by eexists | reflexivity | reflexivity | exact Hall | |].
  { vm_compute. reflexivity. }
  assert (Hfive : total (map_to_list (points (state dueEngine))).*2 = Int 5)
    by (vm_compute; reflexivity).
  split; [exact Hfive|].
  rewrite Ht'. rewrite Hfive in Ht. injection Ht as <-. reflexivity.
Defined.


Lemma applyDelta_missing_house_witness :
  points (state (@step demoHost (SelectDone (Some partialRow)) demoEngine))
    !! houseKey Slytherin = None
  ∧ points (state (@applyDelta demoHost Slytherin (Int 5) None "entry-1"
                     (@step demoHost (SelectDone (Some partialRow)) demoEngine)))
      !! houseKey Slytherin = Some NaN.
Proof.
  split; [reflexivity|].
  apply (@applyDelta_missing_house demoHost Slytherin (Int 5) None "entry-1" (Int 5) None
           "entry-2" (@step demoHost (SelectDone (Some partialRow)) demoEngine) []).
  reflexivity.
Defined.

Lemma leader_integers_witness :
  leader demoEntries = (Int 25, ["Slytherin"; "Ravenclaw"])
  ∧ ∃ z, (leader demoEntries).1 = Int z
      ∧ (∀ h v, (h, Int v) ∈ demoEntries → v ≤ z)
      ∧ (leader demoEntries).2 ≠ []
      ∧ (∀ h, h ∈ (leader demoEntries).2 ↔ (h, Int z) ∈ demoEntries).
Proof.
  split; [reflexivity|].
  apply (leader_integers demoEntries); [discriminate|].
  unfold demoEntries. repeat (apply Forall_cons; split; [by eexists|]).
  apply Forall_nil; exact I.
Defined.

Lemma not_ready_never_syncs_witness :
  @supabaseReady offlineHost = false
  ∧ neverSynced
      (@run offlineHost
         [demoFirst; SetRoom "Klasse 7a"; Elapse 400; Timeout; SetBackend supabase;
          Inbound (Some oldRow); UpsertDone]
         (@mount offlineHost demoState 0)).
Proof.
  split; [reflexivity|].
  apply (@not_ready_never_syncs offlineHost); [reflexivity|].
  apply (@reachable_run offlineHost), (@reachable_mount offlineHost).
Defined.

Lemma channel_and_timer_follow_room_witness :
  channel (@run demoHost [SetRoom "Klasse 7a"; Elapse 100] demoEngine) = Some "klasse7a"
  ∧ @boundToRoom demoHost (@run demoHost [SetRoom "Klasse 7a"; Elapse 100] demoEngine).
Proof.
  split; [reflexivity|].
  apply (@channel_and_timer_follow_room demoHost).
  apply (@reachable_run demoHost), (@reachable_mount demoHost).
Defined.

Lemma syncing_means_awaiting_witness :
  net demoEngine = syncing
  ∧ (0 < awaitingSelect demoEngine + awaitingUpsert demoEngine)%nat.
Proof.
  split; [reflexivity|].
  apply (@syncing_means_awaiting demoHost demoEngine); [|reflexivity].
  apply (@reachable_mount demoHost).
Defined.

Lemma own_echo_discarded_after_write_witness :
  is_Some (timer dueEngine)
  ∧ ∃ pushed,
      upserts (@step demoHost Timeout dueEngine) = pushed :: upserts dueEngine
      ∧ updated_at pushed = toISOString (clock dueEngine)
      ∧ @step demoHost (Inbound (Some pushed))
          (@run demoHost [Timeout; Elapse 50; UpsertDone] dueEngine)
        = @run demoHost [Timeout; Elapse 50; UpsertDone] dueEngine.
Proof.
  split; [by eexists|].
  eapply (@own_echo_discarded_after_write demoHost dueEngine _ 50);
    [reflexivity | vm_compute; discriminate | lia].
Defined.

Lemma early_echo_is_pushed_again_witness :
  @remoteActive demoHost (state dueEngine) = true
  ∧ length (upserts (@run demoHost
                       [Timeout;
                        Inbound (Some {| rowId := "demo";
                                         rowPoints := points (state dueEngine);
                                         rowHistory := history (state dueEngine);
                                         updated_at := Instant 400 |});
                        Elapse DEBOUNCE; Timeout] dueEngine)) = 2%nat.
Proof.
  split; [reflexivity|].
  destruct (@early_echo_is_pushed_again demoHost dueEngine
              {| due := 400; pushRoom := "demo"; pushPoints := points (state dueEngine);
                 pushHistory := history (state dueEngine) |})
    as (pushed & Hfirst & _ & _ & Hsecond);
    [reflexivity | discriminate | reflexivity | vm_compute; discriminate | reflexivity |].
  injection Hfirst as <-. exact (f_equal length Hsecond).
Defined.

Lemma room_change_pushes_local_state_witness :
  @remoteActive demoHost (state demoEngine) = true
  ∧ upserts (@run demoHost [SetRoom "Klasse 7a"; Elapse DEBOUNCE; Timeout] demoEngine)
    = [{| rowId := "klasse7a"; rowPoints := zeroPoints; rowHistory := [];
          updated_at := Instant 400 |}].
Proof.
  split; [reflexivity|].
  apply (@room_change_pushes_local_state demoHost "Klasse 7a" demoEngine);
    [reflexivity | vm_compute; discriminate].
Defined.

Lemma mount_pushes_initial_state_witness :
  @remoteActive demoHost demoState = true
  ∧ upserts (@run demoHost [Elapse DEBOUNCE; Timeout] (@mount demoHost demoState 0))
    = [{| rowId := "demo"; rowPoints := zeroPoints; rowHistory := [];
          updated_at := Instant 400 |}].
Proof.
  split; [reflexivity|].
  apply (@mount_pushes_initial_state demoHost demoState 0). reflexivity.
Defined.

Lemma readLocal_room_normal_witness :
  @readLocal (asciiHost false (λ _, Some (JObj {["room" := JStr "Klasse 7a"]})))
    (Returned (Some "stored")) (Returned None)
  = Returned {| points := zeroPointsJson; history := []; theme := dark; bgUrl := "";
                room := "klasse7a"; backend := JStr "local" |}
  ∧ roomNormal "klasse7a".
Proof.
  assert (Hread : @readLocal (asciiHost false (λ _, Some (JObj {["room" := JStr "Klasse 7a"]})))
                    (Returned (Some "stored")) (Returned None)
                  = Returned {| points := zeroPointsJson; history := []; theme := dark;
                                bgUrl := ""; room := "klasse7a"; backend := JStr "local" |}).
  { vm_compute. reflexivity. }
  split; [exact Hread|].
  apply (@readLocal_room_normal _ _ _ _ (asciiHost_lowerCaseLaws _ _) Hread).
Defined.

Lemma room_stays_normal_witness :
  roomNormal (room (state demoEngine))
  ∧ roomNormal (room (state (@run demoHost [SetRoom "ROOM 1!"; ResetAll true] demoEngine))).
Proof.
  split; [exact roomNormal_demo|].
  apply (@room_stays_normal demoHost [SetRoom "ROOM 1!"; ResetAll true] demoEngine
           (asciiHost_lowerCaseLaws _ _) roomNormal_demo).
Defined.

Lemma readLocal_after_writeLocal_witness :
  writeLocal (λ _, true) demoState = Returned (toSave demoState)
  ∧ @readLocal storedHost (Returned (Some "stored")) (Returned None)
    = Returned {| points := JObj (numberJson <$> zeroPoints); history := []; theme := dark;
                  bgUrl := ""; room := "demo"; backend := JStr "supabase" |}.
Proof.
  split; [reflexivity|].
  apply (@readLocal_after_writeLocal storedHost (λ _, true) demoState (toSave demoState)
           "stored" (Returned None) (asciiHost_lowerCaseLaws _ _));
    [reflexivity | discriminate | reflexivity | exact roomNormal_demo].
Defined.

Lemma select_answer_overrides_newer_merge_witness :
  is_Some (channel demoEngine)
  ∧ points (state (@run demoHost [Inbound (Some partialRow); SelectDone (Some oldRow)]
                     demoEngine)) = rowPoints oldRow
  ∧ lastRemoteRef (@run demoHost [Inbound (Some partialRow); SelectDone (Some oldRow)]
                     demoEngine) = Some (Instant (-86400000)).
Proof.
  split; [by eexists|].
  destruct (@select_answer_overrides_newer_merge demoHost demoEngine partialRow oldRow
              (-86400000) 1000) as (Hpoints & _ & Href & _);
    [discriminate | discriminate | reflexivity | reflexivity | reflexivity | lia |].
  split; [exact Hpoints | exact Href].
Defined.

Lemma history_stays_newest_first_witness :
  newestFirst (clock dueEngine) (history (state dueEngine))
  ∧ newestFirst (clock (@step demoHost (OnAdd minus Slytherin (Int 3) "late" "entry-2")
                          dueEngine))
      (history (state (@step demoHost
                         (OnAdd minus Slytherin (Int 3) "late" "entry-2") dueEngine))).
Proof.
  assert (Hsorted : newestFirst (clock dueEngine) (history (state dueEngine))).
  { split; [vm_compute; discriminate | exact I]. }
  split; [exact Hsorted|].
  apply (@history_stays_newest_first demoHost
           (OnAdd minus Slytherin (Int 3) "late" "entry-2") dueEngine I Hsorted).
Defined.
